(** * Transverse: the client-side file-translation session of [script.js]

    A shallow embedding of the upload / page-selection / translation-submission
    code of [src/script.js], and the properties of it that the specification
    states.

    Conventions of the embedding.
    - A JavaScript Number that holds a page number or a count is a [Z].  That
      is exact for magnitudes below 2^53, where IEEE doubles represent every
      integer.  The one place where the script meets larger numbers is the
      page field: module [Machine] follows [parsePageInput] on doubles
      (numerals rounded, [i++] without effect from 2^53 on) and with the
      length limit of arrays, and the theorems on [parsePageInput] say for
      which texts the two agree.
    - The text typed into the page field is a sequence of UTF-16 code units
      ([text], a [list N]), because [trim] and [parseInt] look at code points
      outside Latin-1.  Strings that the program itself writes (messages,
      content types, form fields) are [string]s, one character per code unit:
      they stand for JavaScript strings whose code units are below 256.  A
      string from the server with other code units, such as a download
      locator of U+3000 alone, is not described.
    - Module-level variables of the script and the few DOM nodes the functions
      read or write are the fields of one record, [Session]; every function is
      a session transformer that also returns the effects it emitted
      (notifications, requests), in order.
    - [console.log] and CSS transitions are not modelled. *)

From Stdlib Require Import ZArith NArith List String Ascii Bool Lia.
From Stdlib Require Import Sorted Permutation QArith Qround DecimalString.
From Stdlib Require Import DecimalPos.
Import ListNotations.

Local Open Scope Z_scope.

(** ** JavaScript built-ins used by the script *)

Module JS.

(** A string as its UTF-16 code units. *)
Definition text := list N.

(** The code units of a literal. *)
Definition lit (s : string) : text :=
  map N_of_ascii (list_ascii_of_string s).

(** WhiteSpace and LineTerminator code points (what [trim] and [parseInt]
    strip): TAB, LF, VT, FF, CR, SP, NBSP, U+1680, U+2000..U+200A, LS, PS,
    U+202F, U+205F, U+3000, U+FEFF. *)
Definition isWhiteSpace (c : N) : bool :=
  ((9 <=? c) && (c <=? 13) || (c =? 32) || (c =? 160) || (c =? 5760)
   || (8192 <=? c) && (c <=? 8202) || (c =? 8232) || (c =? 8233)
   || (c =? 8239) || (c =? 8287) || (c =? 12288) || (c =? 65279))%N.

Fixpoint trimStart (s : text) : text :=
  match s with
  | c :: r => if isWhiteSpace c then trimStart r else s
  | [] => []
  end.

Definition trimEnd (s : text) : text := rev (trimStart (rev s)).

(** [String.prototype.trim] *)
Definition trim (s : text) : text := trimEnd (trimStart s).

(** [s.split(sep)] for a one-unit separator: always at least one piece. *)
Fixpoint split (sep : N) (s : text) : list text :=
  match s with
  | [] => [[]]
  | c :: r =>
      if (c =? sep)%N then [] :: split sep r
      else match split sep r with
           | p :: ps => (c :: p) :: ps
           | [] => [[c]]
           end
  end.

(** [s.includes(c)] for a one-unit needle. *)
Definition includes_unit (c : N) (s : text) : bool := existsb (N.eqb c) s.

Definition comma : N := 44.
Definition hyphen : N := 45.
Definition plus : N := 43.

(** The value of a code unit as a digit of the given radix (10 or 16). *)
Definition digit (radix : Z) (c : N) : option Z :=
  let v :=
    if ((48 <=? c) && (c <=? 57))%N then Some (Z.of_N c - 48)
    else if ((97 <=? c) && (c <=? 102))%N then Some (Z.of_N c - 87)
    else if ((65 <=? c) && (c <=? 70))%N then Some (Z.of_N c - 55)
    else None in
  match v with
  | Some d => if d <? radix then Some d else None
  | None => None
  end.

(** The longest prefix of radix digits, read most significant first; [None]
    when there is no digit at all. *)
Fixpoint digits (radix : Z) (acc : option Z) (s : text) : option Z :=
  match s with
  | c :: r =>
      match digit radix c with
      | Some d =>
          digits radix (Some (match acc with Some a => a * radix + d
                                        | None => d end)) r
      | None => acc
      end
  | [] => acc
  end.

(** [parseInt(s)] with no radix argument: leading white space is skipped, then
    an optional sign, then an optional [0x]/[0X] prefix that selects radix 16;
    [None] is NaN.  The result is the integer the numeral denotes; the Number
    the script gets is the double nearest to it ([Machine.parseInt]), the
    same below 2^53. *)
Definition parseInt (s : text) : option Z :=
  let s1 := trimStart s in
  let '(sign, s2) :=
    match s1 with
    | c :: r => if (c =? hyphen)%N then (-1, r)
                else if (c =? plus)%N then (1, r) else (1, s1)
    | [] => (1, s1)
    end in
  let '(radix, s3) :=
    match s2 with
    | 48%N :: x :: r =>
        if ((x =? 120) || (x =? 88))%N then (16, r) else (10, s2)
    | _ => (10, s2)
    end in
  match digits radix None s3 with
  | Some m => Some (sign * m)
  | None => None
  end.

(** [arr.includes(x)] and [arr.indexOf(x)] on an array of numbers. *)
Definition includes (x : Z) (arr : list Z) : bool := existsb (Z.eqb x) arr.

Fixpoint indexOf_from (i : Z) (x : Z) (arr : list Z) : Z :=
  match arr with
  | y :: r => if y =? x then i else indexOf_from (i + 1) x r
  | [] => -1
  end.

Definition indexOf (x : Z) (arr : list Z) : Z := indexOf_from 0 x arr.

(** [arr.splice(index, 1)] for [0 <= index]: the array without that slot. *)
Definition splice1 (index : Z) (arr : list Z) : list Z :=
  firstn (Z.to_nat index) arr ++ skipn (S (Z.to_nat index)) arr.

(** [arr.sort((a, b) => a - b)].  The comparator is a total order on
    numbers, so the outcome is the one ascending arrangement of the
    elements whatever algorithm the engine runs ([sort_unique] below);
    insertion is used here. *)
Fixpoint insert_asc (x : Z) (l : list Z) : list Z :=
  match l with
  | y :: r => if x <=? y then x :: l else y :: insert_asc x r
  | [] => [x]
  end.

Fixpoint sort (l : list Z) : list Z :=
  match l with
  | x :: r => insert_asc x (sort r)
  | [] => []
  end.

(** A string between double quotes, as JSON writes it. *)
Definition quoted (s : string) : string :=
  let q := String (ascii_of_N 34) EmptyString in (q ++ s ++ q)%string.

(** Number to string, for integers of magnitude below 10^21, which are
    written in decimal digits.  From 10^21 on JavaScript writes an exponent;
    those numbers are not described. *)
Definition toString (z : Z) : string := NilZero.string_of_int (Z.to_int z).

(** [arr.join(sep)] on an array of numbers. *)
Fixpoint join (sep : string) (arr : list Z) : string :=
  match arr with
  | [] => EmptyString
  | [x] => toString x
  | x :: r => (toString x ++ sep ++ join sep r)%string
  end.

End JS.

(** ** The session: globals of the script and the DOM nodes it consults *)

Module Session.
Import JS.

(** A [File] object as far as the script looks at it. *)
Record File := { name : string; type : string; size : Z }.

(** [file_info] of the upload response, and the response itself. *)
Record FileInfo := { pages : Z; extension : string }.
Record FileData := { file_info : FileInfo }.

(** What [JSON.parse] returns; [Undefined] is added for absent properties. *)
#[warnings="-register-all"] Inductive value :=
| Undefined
| Null
| Bool (b : bool)
| Num (q : Q)
| Str (s : string)
| Arr (items : list value)
| Obj (fields : list (string * value)).

(** ToBoolean. *)
Definition truthy (v : value) : bool :=
  match v with
  | Undefined | Null => false
  | Bool b => b
  | Num q => negb (Qeq_bool q 0)
  | Str s => negb (String.eqb s EmptyString)
  | Arr _ | Obj _ => true
  end.

Fixpoint lookup (k : string) (fields : list (string * value)) : value :=
  match fields with
  | (k', v) :: r => if String.eqb k k' then v else lookup k r
  | [] => Undefined
  end.

(** [v.k] for one of the keys the script reads ([success], [download_url],
    [translated_pages], [error]), on a value that is not null or undefined:
    only a parsed object can have them. *)
Definition get (v : value) (k : string) : value :=
  match v with
  | Obj fields => lookup k fields
  | _ => Undefined
  end.

Record Session := {
  (* module-level variables *)
  selectedPages : list Z;
  currentFileData : option FileData;
  currentFileInfo : option FileInfo;
  originalUploadedFile : option File;
  translatedPdfDownloadUrl : value;
  (* DOM *)
  timeEstimate : option string;          (* #timeEstimate.textContent, if the node exists *)
  pageIcons : list Z;                    (* data-page of the .page-icon nodes *)
  fileInput : option (list File);        (* #fileInput.files, if the node exists *)
  fileTargetLanguage : string;           (* #fileTargetLanguage.value *)
  translateBtn_loading : bool            (* #translateFileBtn has class loading *)
}.

Definition set_selectedPages (x : list Z) (s : Session) : Session :=
  {| selectedPages := x; currentFileData := currentFileData s;
     currentFileInfo := currentFileInfo s;
     originalUploadedFile := originalUploadedFile s;
     translatedPdfDownloadUrl := translatedPdfDownloadUrl s;
     timeEstimate := timeEstimate s; pageIcons := pageIcons s;
     fileInput := fileInput s; fileTargetLanguage := fileTargetLanguage s;
     translateBtn_loading := translateBtn_loading s |}.

Definition set_currentFileData (x : option FileData) (s : Session) : Session :=
  {| selectedPages := selectedPages s; currentFileData := x;
     currentFileInfo := currentFileInfo s;
     originalUploadedFile := originalUploadedFile s;
     translatedPdfDownloadUrl := translatedPdfDownloadUrl s;
     timeEstimate := timeEstimate s; pageIcons := pageIcons s;
     fileInput := fileInput s; fileTargetLanguage := fileTargetLanguage s;
     translateBtn_loading := translateBtn_loading s |}.

Definition set_currentFileInfo (x : option FileInfo) (s : Session) : Session :=
  {| selectedPages := selectedPages s; currentFileData := currentFileData s;
     currentFileInfo := x;
     originalUploadedFile := originalUploadedFile s;
     translatedPdfDownloadUrl := translatedPdfDownloadUrl s;
     timeEstimate := timeEstimate s; pageIcons := pageIcons s;
     fileInput := fileInput s; fileTargetLanguage := fileTargetLanguage s;
     translateBtn_loading := translateBtn_loading s |}.

Definition set_originalUploadedFile (x : option File) (s : Session) : Session :=
  {| selectedPages := selectedPages s; currentFileData := currentFileData s;
     currentFileInfo := currentFileInfo s;
     originalUploadedFile := x;
     translatedPdfDownloadUrl := translatedPdfDownloadUrl s;
     timeEstimate := timeEstimate s; pageIcons := pageIcons s;
     fileInput := fileInput s; fileTargetLanguage := fileTargetLanguage s;
     translateBtn_loading := translateBtn_loading s |}.

Definition set_translatedPdfDownloadUrl (x : value) (s : Session) : Session :=
  {| selectedPages := selectedPages s; currentFileData := currentFileData s;
     currentFileInfo := currentFileInfo s;
     originalUploadedFile := originalUploadedFile s;
     translatedPdfDownloadUrl := x;
     timeEstimate := timeEstimate s; pageIcons := pageIcons s;
     fileInput := fileInput s; fileTargetLanguage := fileTargetLanguage s;
     translateBtn_loading := translateBtn_loading s |}.

Definition set_timeEstimate (x : option string) (s : Session) : Session :=
  {| selectedPages := selectedPages s; currentFileData := currentFileData s;
     currentFileInfo := currentFileInfo s;
     originalUploadedFile := originalUploadedFile s;
     translatedPdfDownloadUrl := translatedPdfDownloadUrl s;
     timeEstimate := x; pageIcons := pageIcons s;
     fileInput := fileInput s; fileTargetLanguage := fileTargetLanguage s;
     translateBtn_loading := translateBtn_loading s |}.

Definition set_pageIcons (x : list Z) (s : Session) : Session :=
  {| selectedPages := selectedPages s; currentFileData := currentFileData s;
     currentFileInfo := currentFileInfo s;
     originalUploadedFile := originalUploadedFile s;
     translatedPdfDownloadUrl := translatedPdfDownloadUrl s;
     timeEstimate := timeEstimate s; pageIcons := x;
     fileInput := fileInput s; fileTargetLanguage := fileTargetLanguage s;
     translateBtn_loading := translateBtn_loading s |}.

Definition set_loading (x : bool) (s : Session) : Session :=
  {| selectedPages := selectedPages s; currentFileData := currentFileData s;
     currentFileInfo := currentFileInfo s;
     originalUploadedFile := originalUploadedFile s;
     translatedPdfDownloadUrl := translatedPdfDownloadUrl s;
     timeEstimate := timeEstimate s; pageIcons := pageIcons s;
     fileInput := fileInput s; fileTargetLanguage := fileTargetLanguage s;
     translateBtn_loading := x |}.

Definition set_fileInput (x : option (list File)) (s : Session) : Session :=
  {| selectedPages := selectedPages s; currentFileData := currentFileData s;
     currentFileInfo := currentFileInfo s;
     originalUploadedFile := originalUploadedFile s;
     translatedPdfDownloadUrl := translatedPdfDownloadUrl s;
     timeEstimate := timeEstimate s; pageIcons := pageIcons s;
     fileInput := x; fileTargetLanguage := fileTargetLanguage s;
     translateBtn_loading := translateBtn_loading s |}.

(** The script's initial values, on a page that has the nodes. *)
Definition initial (targetLanguage : string) : Session :=
  {| selectedPages := []; currentFileData := None; currentFileInfo := None;
     originalUploadedFile := None; translatedPdfDownloadUrl := Str EmptyString;
     timeEstimate := Some "--"%string; pageIcons := [];
     fileInput := Some []; fileTargetLanguage := targetLanguage;
     translateBtn_loading := false |}.

(** *** Effects *)

(** A template literal: fixed text and interpolated values. *)
Inductive piece := Lit (s : string) | Interp (v : value).

Inductive formValue := FileField (f : File) | TextField (s : string).

Definition FormData := list (string * formValue).

(** [formData.get(k)]: the first value appended under the name. *)
Fixpoint formField (k : string) (formData : FormData) : option formValue :=
  match formData with
  | (k', v) :: r => if String.eqb k k' then Some v else formField k r
  | [] => None
  end.

Inductive effect :=
| showNotification (message : list piece) (type : string)
| showFileUploadLoading
| xhrSend (method url : string) (formData : FormData) (timeout : Z)
| showFileTranslationSuccess (targetLanguage service time : string)
| fetchHead (url : string)
| linkClick (href download : string).

(** How a call ends: it returns, or an exception escapes it. *)
Inductive completion := Return | Throw (error : string).

Definition isNetwork (e : effect) : bool :=
  match e with
  | xhrSend _ _ _ _ | fetchHead _ => true
  | _ => false
  end.

Definition isErrorNotification (e : effect) : bool :=
  match e with
  | showNotification _ t => String.eqb t "error"
  | _ => false
  end.

(** *** Page selector *)

Definition avgSecondsPerPage : Q := 9 # 2.

(** [Math.round]: the nearest integer, halves upwards. *)
Definition Math_round (x : Q) : Z := Qfloor (x + (1 # 2)).

Definition Math_floor (x : Q) : Z := Qfloor x.

(** [x % m]: the remainder has the sign of [x]. *)
Definition remainder (x m : Q) : Q :=
  let q := (x / m)%Q in
  (x - m * inject_Z (if Qle_bool 0 q then Qfloor q else Qceiling q))%Q.

Definition lengthOf {A} (arr : list A) : Z := Z.of_nat (List.length arr).

(** The text [updateTimeEstimate] writes. *)
Definition timeEstimateText (selectedPages : list Z) : string :=
  if lengthOf selectedPages =? 0 then "--"%string
  else
    let totalSeconds := (inject_Z (lengthOf selectedPages) * avgSecondsPerPage)%Q in
    if negb (Qle_bool 60 totalSeconds) then
      (toString (Math_round totalSeconds) ++ "s")%string
    else
      let minutes := Math_floor (totalSeconds / 60) in
      let seconds := Math_round (remainder totalSeconds 60) in
      (toString minutes ++ "m " ++ toString seconds ++ "s")%string.

(** [updateTimeEstimate(selectedPages)]: nothing happens without the node. *)
Definition updateTimeEstimate (selectedPages : list Z) (s : Session) : Session :=
  match timeEstimate s with
  | None => s
  | Some _ => set_timeEstimate (Some (timeEstimateText selectedPages)) s
  end.

(** [updatePageSelectionUI] only repaints the icons and the counter from
    [selectedPages]; it has no field of its own here. *)

(** [togglePageSelection(pageNumber)] *)
Definition togglePageSelection (pageNumber : Z) (s : Session) : Session :=
  let index := indexOf pageNumber (selectedPages s) in
  let arr :=
    if index >? -1 then splice1 index (selectedPages s)
    else selectedPages s ++ [pageNumber] in
  let s := set_selectedPages (sort arr) s in
  updateTimeEstimate (selectedPages s) s.

(** The array [togglePageSelection] sorts: the selection without the page when
    the page was in it, with the page appended when it was not.  No bound on
    the page is consulted. *)
Definition toggled (page : Z) (sel : list Z) : list Z :=
  if indexOf page sel >? -1 then splice1 (indexOf page sel) sel
  else sel ++ [page].

(** [handlePagePreviewClick(event)]: [pageItem] is the icon under the click,
    if any, as the [parseInt] of its [data-page]. *)
Definition handlePagePreviewClick (pageItem : option (option Z)) (s : Session)
  : Session :=
  match pageItem with
  | None => s
  | Some None => s
  | Some (Some pageNumber) => togglePageSelection pageNumber s
  end.

(** [selectAllPages()] *)
Definition selectAllPages (s : Session) : Session :=
  let arr := fold_left (fun acc pageNumber => acc ++ [pageNumber]) (pageIcons s) [] in
  let s := set_selectedPages (sort arr) s in
  updateTimeEstimate (selectedPages s) s.

(** [deselectAllPages()] *)
Definition deselectAllPages (s : Session) : Session :=
  let s := set_selectedPages [] s in
  updateTimeEstimate (selectedPages s) s.

(** [for (let i = start; i <= end; i++) if (!arr.includes(i)) arr.push(i)],
    run for at most [fuel] iterations, on exact integers and with a list of
    any length.  The loop as the script runs it, on doubles and with an
    array, is [Machine.pushRange]; between pages below 2^32 - 1 the two do
    the same. *)
Fixpoint pushRange (fuel : nat) (i end_ : Z) (arr : list Z) : list Z :=
  match fuel with
  | O => arr
  | S fuel' =>
      if i <=? end_ then
        pushRange fuel' (i + 1) end_
          (if includes i arr then arr else arr ++ [i])
      else arr
  end.

(** The body of [parts.forEach(part => ...)]. *)
Definition addPart (newSelectedPages : list Z) (part : text) : list Z :=
  let trimmed := trim part in
  if includes_unit hyphen trimmed then
    match split hyphen trimmed with
    | [p0; p1] =>
        match parseInt (trim p0), parseInt (trim p1) with
        | Some start, Some end_ =>
            if start <=? end_ then
              pushRange (Z.to_nat (end_ - start + 1)) start end_ newSelectedPages
            else newSelectedPages
        | _, _ => newSelectedPages
        end
    | _ => newSelectedPages
    end
  else
    match parseInt trimmed with
    | Some pageNum =>
        if includes pageNum newSelectedPages then newSelectedPages
        else newSelectedPages ++ [pageNum]
    | None => newSelectedPages
    end.

(** [currentFileData ? (currentFileData.file_info.pages || 1) : 1000] *)
Definition maxPages (s : Session) : Z :=
  match currentFileData s with
  | Some data => if pages (file_info data) =? 0 then 1 else pages (file_info data)
  | None => 1000
  end.

(** [parsePageInput(event)], [value] being [event.target.value], on exact
    integers: the session the call leaves when it returns.  When it returns
    is the matter of [Machine.parsePageInput]. *)
Definition parsePageInput (value : text) (s : Session) : Session :=
  let input := trim value in
  match input with
  | [] => deselectAllPages s
  | _ =>
      let newSelectedPages := fold_left addPart (split comma input) [] in
      let s :=
        set_selectedPages
          (sort (filter (fun page => (1 <=? page) && (page <=? maxPages s))
                   newSelectedPages)) s in
      updateTimeEstimate (selectedPages s) s
  end.

(** The values of [i] in [for (let i = 1; i <= n; i++)]. *)
Definition pageNumbers (n : Z) : list Z :=
  map (fun k => Z.of_nat k) (seq 1 (Z.to_nat n)).

(** [generatePagePreviews(data)]: one icon per page, numbered from 1. *)
Definition generatePagePreviews (data : FileData) (s : Session) : Session :=
  let totalPages := if pages (file_info data) =? 0 then 1 else pages (file_info data) in
  set_pageIcons (pageNumbers totalPages) s.

(** [showFileTranslationResults(data)], for a response whose [file_info] has
    a page count and an extension; on any other body the script throws at
    [data.file_info.pages] or at [extension.toLowerCase()]. *)
Definition showFileTranslationResults (data : FileData) (s : Session) : Session :=
  let s := set_currentFileData (Some data) s in
  let s := set_selectedPages [] s in
  let s := generatePagePreviews data s in
  updateTimeEstimate (selectedPages s) s.

(** [hideFileTranslation()] *)
Definition hideFileTranslation (s : Session) : Session :=
  set_originalUploadedFile None
    (set_currentFileData None
       (set_translatedPdfDownloadUrl (Str EmptyString)
          (set_currentFileInfo None (set_selectedPages [] s)))).

(** *** Upload *)

Definition allowedTypes : list string :=
  [ (* Document formats *)
    "text/plain";
    "application/pdf";
    "application/vnd.ms-xpsdocument";
    "application/oxps";
    "application/epub+zip";
    "application/x-mobipocket-ebook";
    "application/x-fictionbook+xml";
    "text/xml";
    "application/vnd.comicbook+zip";
    "application/zip";
    "image/svg+xml";
    (* Image formats *)
    "image/jpeg";
    "image/png";
    "image/bmp";
    "image/gif";
    "image/tiff";
    "image/x-portable-anymap";
    "image/x-portable-graymap";
    "image/x-portable-bitmap";
    "image/x-portable-pixmap";
    "image/x-portable-arbitrarymap";
    "image/vnd.ms-photo";
    "image/jxr";
    "image/jp2";
    "image/jpx";
    "image/vnd.adobe.photoshop";
    "application/octet-stream" ]%string.

(** [allowedTypes.includes(t)] *)
Definition includes_string (t : string) (arr : list string) : bool :=
  existsb (String.eqb t) arr.

(** [uploadFileToServer(file)]: the request it sends.  Its handlers run
    later, on the response. *)
Definition uploadFileToServer (file : File) : list effect :=
  [xhrSend "POST" "http://127.0.0.1:8000/api/upload/"
     [("file"%string, FileField file)] 300000].

(** [handleFileUpload(file)] *)
Definition handleFileUpload (file : File) (s : Session) : Session * list effect :=
  let s := set_originalUploadedFile (Some file) s in
  if negb (includes_string (type file) allowedTypes) then
    (s, [showNotification
           [Lit "Unsupported file type. Please upload supported document or image formats."]
           "error"])
  else
    (s, showFileUploadLoading :: uploadFileToServer file).

(** *** Translation *)

(** The notification [translateFileContent] shows as it sends the request. *)
Definition startingTranslation : effect :=
  showNotification
    [Lit "Starting file translation with Google Gemini 2.5 Flash... This may take a few minutes depending on the number of pages."]
    "success".

(** The form [translateFileContent] fills. *)
Definition translateForm (file : File) (targetLanguage : string)
    (selectedPages : list Z) (info : FileInfo) : FormData :=
  let formData :=
    [("file"%string, FileField file);
     ("target_language"%string, TextField targetLanguage);
     ("service_name"%string, TextField "gemini")] in
  if (lengthOf selectedPages >? 0) && negb (lengthOf selectedPages =? pages info)
  then formData ++ [("pages"%string, TextField (join "," selectedPages))]
  else formData.

(** [translateFileContent()], up to [xhr.send].  Reading [currentFileInfo.pages]
    while [currentFileInfo] is null throws. *)
Definition translateFileContent (s : Session)
  : Session * list effect * completion :=
  match currentFileData s with
  | None =>
      (s, [showNotification [Lit "No file data available"] "error"], Return)
  | Some _ =>
      if lengthOf (selectedPages s) =? 0 then
        (s, [showNotification [Lit "Please select at least one page to translate"]
               "error"], Return)
      else
        let targetLanguage := fileTargetLanguage s in
        let s := set_loading true s in
        let s :=
          match originalUploadedFile s with
          | Some _ => s
          | None =>
              match fileInput s with
              | Some (f :: _) => set_originalUploadedFile (Some f) s
              | _ => s
              end
          end in
        match originalUploadedFile s with
        | None =>
            (set_loading false s,
             [showNotification [Lit "Please upload a file first"] "error"], Return)
        | Some file =>
            match currentFileInfo s with
            | None => (s, [], Throw "TypeError")
            | Some info =>
                (s,
                 [startingTranslation;
                  xhrSend "POST" "http://127.0.0.1:8000/api/translate-pdf/"
                    (translateForm file targetLanguage (selectedPages s) info)
                    300000],
                 Return)
            end
        end
  end.

(** The file [translateFileContent] ends up with: the retained one, else the
    first file of the file input. *)
Definition availableFile (s : Session) : option File :=
  match originalUploadedFile s with
  | Some file => Some file
  | None =>
      match fileInput s with
      | Some (f :: _) => Some f
      | _ => None
      end
  end.

(** What [xhr.onload] of the translation sees: the status, the body, and
    what [JSON.parse] makes of the body ([None] when it throws). *)
Record Response := {
  status : Z;
  responseText : string;
  parsed : option value
}.

(** [xhr.onload] of [translateFileContent]; [targetLanguage] is the one read
    at submission, [translationTime] the elapsed time as formatted by
    [toFixed(2)]. *)
Definition translateOnload (targetLanguage translationTime : string)
    (xhr : Response) (s : Session) : Session * list effect :=
  let s := set_loading false s in
  if status xhr =? 200 then
    match parsed xhr with
    | Some data =>
        if truthy data && truthy (get data "success") then
          let s := set_translatedPdfDownloadUrl (get data "download_url") s in
          (s,
           [showFileTranslationSuccess targetLanguage "Google Gemini 2.5 Flash"
              translationTime;
            showNotification
              [Lit "Successfully translated ";
               Interp (if truthy (get data "translated_pages")
                       then get data "translated_pages"
                       else Num (inject_Z (lengthOf (selectedPages s))));
               Lit " pages using Google Gemini 2.5 Flash in ";
               Lit translationTime; Lit "s!"]
              "success"])
        else if truthy data then
          (s, [showNotification
                 [Lit "Translation failed: "; Interp (get data "error")] "error"])
        else
          (s, [showNotification
                 [Lit "Translation failed: Empty response from server"] "error"])
    | None =>
        (s, [showNotification
               [Lit "Translation failed: Invalid response format - ";
                Lit (responseText xhr)] "error"])
    end
  else
    (s, [showNotification
           [Lit "Translation failed: HTTP "; Interp (Num (inject_Z (status xhr)));
            Lit " - "; Lit (responseText xhr)] "error"]).

(** [downloadTranslatedFile()].  The HEAD probe is advisory: whatever it
    answers, the link is clicked afterwards.  A locator that is truthy but
    not a string has no [trim].  The locator is a [string], so the blank test
    sees code units below 256 only. *)
Definition downloadTranslatedFile (s : Session)
  : Session * list effect * completion :=
  if negb (truthy (translatedPdfDownloadUrl s)) then
    (s, [showNotification [Lit "No translated file available for download"]
           "error"], Return)
  else
    match translatedPdfDownloadUrl s with
    | Str url =>
        match trim (lit url) with
        | [] =>
            (s, [showNotification [Lit "Invalid download URL received from server"]
                   "error"], Return)
        | _ =>
            let url :=
              if negb (String.prefix "http://" url) && negb (String.prefix "https://" url)
              then ("http://127.0.0.1:8000" ++ url)%string else url in
            (set_translatedPdfDownloadUrl (Str url) s,
             [fetchHead url; linkClick url "translated_document.pdf";
              showNotification [Lit "Download started!"] "success"],
             Return)
        end
    | _ => (s, [], Throw "TypeError")
    end.

(** *** What can happen to a session *)

(** The handlers the page registers, as events.  [FileInfoStored] is the
    assignment [currentFileInfo = data.file_info] of the upload's [onload],
    [ResultsShown] the call of [showFileTranslationResults] its timer makes;
    [Click] is a click in the preview container, on the icon at the given
    position or on no icon.

    Two kinds of calls are not among the events.  [ResultsShown] carries a
    [FileData]: a response body with a truthy [success] and no [file_info],
    or with a [file_info] whose [extension] is not a string, passes the test
    of [onload] as well, and [showFileTranslationResults] then throws inside
    [generatePagePreviews], after [currentFileData] and [selectedPages] were
    assigned and before the icons and the estimate are renewed.  And [Input]
    steps with [parsePageInput] on exact integers, which describes the texts
    on which the script's range loop comes to its end ([Machine] below). *)
Inductive event :=
| Upload (file : File)
| FileInfoStored (info : FileInfo)
| ResultsShown (data : FileData)
| Click (icon : option nat)
| SelectAll
| DeselectAll
| Input (value : text)
| Back
| Translate
| TranslateDone (targetLanguage translationTime : string) (xhr : Response)
| Download.

Definition handle (s : Session) (e : event) : Session :=
  match e with
  | Upload file => fst (handleFileUpload file s)
  | FileInfoStored info => set_currentFileInfo (Some info) s
  | ResultsShown data => showFileTranslationResults data s
  | Click None => handlePagePreviewClick None s
  | Click (Some k) =>
      match nth_error (pageIcons s) k with
      | Some page => handlePagePreviewClick (Some (Some page)) s
      | None => s
      end
  | SelectAll => selectAllPages s
  | DeselectAll => deselectAllPages s
  | Input value => parsePageInput value s
  | Back => hideFileTranslation s
  | Translate => fst (fst (translateFileContent s))
  | TranslateDone targetLanguage translationTime xhr =>
      fst (translateOnload targetLanguage translationTime xhr s)
  | Download => fst (fst (downloadTranslatedFile s))
  end.

Definition run (events : list event) (s : Session) : Session :=
  fold_left handle events s.

(** What the page selector keeps true of a session: the selection is
    strictly ascending, the icons are distinct, and while a file is loaded the
    icons are its pages and the selection lies among them. *)
Definition wellFormed (s : Session) : Prop :=
  Sorted Z.lt (selectedPages s)
  /\ NoDup (pageIcons s)
  /\ (currentFileData s <> None ->
      pageIcons s = pageNumbers (maxPages s)
      /\ Forall (fun page => 1 <= page <= maxPages s) (selectedPages s)).

End Session.

(** ** The specification's duration estimate *)

Module Spec.
Import JS Session.

(** The sentinel for "unknown". *)
Definition unknown : string := "--".

(** [estimateDuration(secondsPerPage)] in the specification's words:
    [ceil(|selection| * secondsPerPage)] seconds, written "Ns" under a
    minute and "Mm Ss" from a minute on; the sentinel when nothing is
    selected. *)
Definition estimateDuration (secondsPerPage : Q) (selection : list Z) : string :=
  if lengthOf selection =? 0 then unknown
  else
    let total := Qceiling (inject_Z (lengthOf selection) * secondsPerPage) in
    if total <? 60 then (toString total ++ "s")%string
    else (toString (total / 60) ++ "m " ++ toString (total mod 60) ++ "s")%string.

(** The pages a comma-separated token stands for, as an interval: a number
    stands for itself, [start-end] with [start <= end] for the pages from
    [start] to [end], anything else for nothing. *)
Definition tokenRange (part : text) : option (Z * Z) :=
  let trimmed := trim part in
  if includes_unit hyphen trimmed then
    match split hyphen trimmed with
    | [p0; p1] =>
        match parseInt (trim p0), parseInt (trim p1) with
        | Some start, Some end_ =>
            if start <=? end_ then Some (start, end_) else None
        | _, _ => None
        end
    | _ => None
    end
  else
    match parseInt trimmed with
    | Some pageNum => Some (pageNum, pageNum)
    | None => None
    end.

End Spec.

(** ** The page field on doubles and arrays of bounded length *)

(** [Session.parsePageInput] counts through a typed range on exact integers
    and collects the pages in a list of any length.  The script counts on
    IEEE doubles and collects in an array, whose length stays below 2^32.
    This module follows the script in both, with fuel for the loop, so that
    it can be said when the call returns, when it throws and when it never
    comes to an end. *)

Module Machine.
Import JS Session.

(** The Numbers the page field gives rise to: the integers a double holds,
    and the infinities a very long numeral is read as.  NaN is the [None] of
    [parseInt]; [-0] is [Finite 0], which no operation used here tells apart
    from it. *)
Inductive number := Finite (z : Z) | Infinite (negative : bool).

(** The Number for a mathematical integer: the nearest double, a tie going to
    the even significand of 53 bits; infinity from 2^1024 - 2^970 on. *)
Definition roundToDouble (z : Z) : number :=
  let m := Z.abs z in
  if m <? 2 ^ 53 then Finite z
  else
    let k := Z.log2 m - 52 in
    let q := Z.shiftr m k in
    let r := Z.land m (Z.ones k) in
    let half := Z.shiftl 1 (k - 1) in
    let q := if (half <? r) || ((r =? half) && Z.odd q) then q + 1 else q in
    let v := Z.shiftl q k in
    if 2 ^ 1024 <=? v then Infinite (z <? 0) else Finite (Z.sgn z * v).

(** [parseInt(s)]: the integer the numeral denotes, as a Number.  (For a
    decimal numeral of more than 20 significant digits an engine may read
    the digits after the 20th as zeros; here it does not.) *)
Definition parseInt (s : text) : option number :=
  option_map roundToDouble (JS.parseInt s).

(** [a <= b] *)
Definition leb (a b : number) : bool :=
  match a, b with
  | Finite x, Finite y => x <=? y
  | Infinite true, _ => true
  | _, Infinite false => true
  | _, _ => false
  end.

(** SameValueZero, the equality of [includes]. *)
Definition eqb (a b : number) : bool :=
  match a, b with
  | Finite x, Finite y => x =? y
  | Infinite m, Infinite n => Bool.eqb m n
  | _, _ => false
  end.

(** The value of [i] after [i++]. *)
Definition succ (i : number) : number :=
  match i with
  | Finite z => roundToDouble (z + 1)
  | Infinite negative => Infinite negative
  end.

(** [arr.includes(x)] *)
Definition includes (x : number) (arr : list number) : bool := existsb (eqb x) arr.

(** The greatest length of an array, 2^32 - 1. *)
Definition maxLength : Z := 4294967295.

(** How a call ends: it returns, an exception escapes it, or the fuel runs
    out before either. *)
Inductive outcome (A : Type) :=
| Returned (a : A)
| Thrown (error : string)
| Unfinished.

Arguments Returned {A} a.
Arguments Thrown {A} error.
Arguments Unfinished {A}.

(** [arr.push(x)]: an array of the greatest length takes no further element,
    setting its [length] throws. *)
Definition push (x : number) (arr : list number) : outcome (list number) :=
  if lengthOf arr <? maxLength then Returned (arr ++ [x]) else Thrown "RangeError".

(** [for (let i = start; i <= end; i++) if (!arr.includes(i)) arr.push(i)] *)
Fixpoint pushRange (fuel : nat) (i end_ : number) (arr : list number)
  : outcome (list number) :=
  match fuel with
  | O => Unfinished
  | S fuel' =>
      if leb i end_ then
        match (if includes i arr then Returned arr else push i arr) with
        | Returned arr' => pushRange fuel' (succ i) end_ arr'
        | Thrown error => Thrown error
        | Unfinished => Unfinished
        end
      else Returned arr
  end.

(** The body of [parts.forEach(part => ...)]. *)
Definition addPart (fuel : nat) (newSelectedPages : list number) (part : text)
  : outcome (list number) :=
  let trimmed := trim part in
  if includes_unit hyphen trimmed then
    match split hyphen trimmed with
    | [p0; p1] =>
        match parseInt (trim p0), parseInt (trim p1) with
        | Some start, Some end_ =>
            if leb start end_ then pushRange fuel start end_ newSelectedPages
            else Returned newSelectedPages
        | _, _ => Returned newSelectedPages
        end
    | _ => Returned newSelectedPages
    end
  else
    match parseInt trimmed with
    | Some pageNum =>
        if includes pageNum newSelectedPages then Returned newSelectedPages
        else push pageNum newSelectedPages
    | None => Returned newSelectedPages
    end.

(** [parts.forEach]: the parts in order, up to the first that does not
    return; every range loop has the whole fuel. *)
Fixpoint forEach (fuel : nat) (parts : list text) (newSelectedPages : list number)
  : outcome (list number) :=
  match parts with
  | [] => Returned newSelectedPages
  | part :: rest =>
      match addPart fuel newSelectedPages part with
      | Returned arr => forEach fuel rest arr
      | Thrown error => Thrown error
      | Unfinished => Unfinished
      end
  end.

(** [arr.filter(page => page >= 1 && page <= maxPages)]; what passes is an
    integer. *)
Fixpoint within (maxPages : Z) (arr : list number) : list Z :=
  match arr with
  | Finite page :: rest =>
      if (1 <=? page) && (page <=? maxPages) then page :: within maxPages rest
      else within maxPages rest
  | Infinite _ :: rest => within maxPages rest
  | [] => []
  end.

(** [parsePageInput(event)].  Nothing is assigned before the filter, so a call
    that throws leaves the session as it found it. *)
Definition parsePageInput (fuel : nat) (value : text) (s : Session)
  : outcome Session :=
  let input := trim value in
  match input with
  | [] => Returned (deselectAllPages s)
  | _ =>
      match forEach fuel (split comma input) [] with
      | Returned newSelectedPages =>
          let s :=
            set_selectedPages (sort (within (maxPages s) newSelectedPages)) s in
          Returned (updateTimeEstimate (selectedPages s) s)
      | Thrown error => Thrown error
      | Unfinished => Unfinished
      end
  end.

(** The numbers the script compares and counts between when it handles a
    token: both ends of a range when both are numbers, the number of a token
    without hyphen. *)
Definition tokenNumbers (part : text) : list Z :=
  let trimmed := trim part in
  if includes_unit hyphen trimmed then
    match split hyphen trimmed with
    | [p0; p1] =>
        match JS.parseInt (trim p0), JS.parseInt (trim p1) with
        | Some start, Some end_ => [start; end_]
        | _, _ => []
        end
    | _ => []
    end
  else
    match JS.parseInt trimmed with
    | Some pageNum => [pageNum]
    | None => []
    end.

(** Every such number of the text is below the bound. *)
Definition numbersBelow (bound : Z) (value : text) : bool :=
  forallb (fun part => forallb (fun number => number <? bound) (tokenNumbers part))
    (split comma (trim value)).

End Machine.

Definition pdf3 : Session.FileData :=
  {| Session.file_info := {| Session.pages := 3; Session.extension := ".pdf" |} |}.

Definition report_pdf : Session.File :=
  {| Session.name := "report.pdf"; Session.type := "application/pdf";
     Session.size := 2048 |}.

Definition notes_docx : Session.File :=
  {| Session.name := "notes.docx";
     Session.type := "application/vnd.openxmlformats-officedocument.wordprocessingml.document";
     Session.size := 512 |}.

(** A session after [report_pdf] was uploaded and the server described it as a
    three-page document. *)
Definition uploaded3 : Session.Session :=
  Session.showFileTranslationResults pdf3
    (Session.set_currentFileInfo (Some (Session.file_info pdf3))
       (fst (Session.handleFileUpload report_pdf (Session.initial "French")))).

(** The three-page session with page 1 selected, after the retained file was
    dropped while the file input still holds it. *)
Definition fallback3 : Session.Session :=
  Session.set_fileInput (Some [report_pdf])
    (Session.set_originalUploadedFile None
       (Session.parsePageInput (JS.lit "1") uploaded3)).


(** The three-page session once pages 1 and 3 were submitted for translation. *)
Definition submitted3 : Session.Session :=
  fst (fst (Session.translateFileContent
              (Session.parsePageInput (JS.lit "1,3") uploaded3))).

(** A translate response that reports success and names no download. *)
Definition success_without_url : Session.Response :=
  {| Session.status := 200;
     Session.responseText :=
       ("{" ++ JS.quoted "success" ++ ": true}")%string;
     Session.parsed := Some (Session.Obj [("success"%string, Session.Bool true)]) |}.

(** A translate response that reports success and names the download. *)
Definition success_with_url : Session.Response :=
  {| Session.status := 200;
     Session.responseText :=
       ("{" ++ JS.quoted "success" ++ ": true, " ++ JS.quoted "download_url" ++ ": "
        ++ JS.quoted "http://127.0.0.1:8000/media/translated.pdf" ++ "}")%string;
     Session.parsed :=
       Some (Session.Obj
               [("success"%string, Session.Bool true);
                ("download_url"%string,
                 Session.Str "http://127.0.0.1:8000/media/translated.pdf")]) |}.

(** ** Views of a session and of a response *)

Module View.
Import JS Session.

(** The test [xhr.onload] of the translation makes before it reports
    success: status 200, a body that parses, [data && data.success]. *)
Definition accepted (xhr : Response) : bool :=
  (status xhr =? 200)
  && match parsed xhr with
     | Some data => truthy data && truthy (get data "success")
     | None => false
     end.

(** The estimate on the page is the one for the selection, while a file is
    loaded; and the node that shows it is there. *)
Definition estimateShown (s : Session) : Prop :=
  timeEstimate s <> None
  /\ (currentFileData s <> None ->
      timeEstimate s = Some (timeEstimateText (selectedPages s))).

(** A locator with a scheme. *)
Definition absolute (url : string) : bool :=
  String.prefix "http://" url || String.prefix "https://" url.

End View.

(** ** String utilities of [script.js] and the component loader *)

Module Strings.
Import JS.

Definition semicolon : N := 59.
Definition equals : N := 61.
Definition slash : N := 47.
Definition dot : N := 46.

(** A decimal digit, as a code unit. *)
Definition isDigit (c : N) : bool := ((48 <=? c) && (c <=? 57))%N.

(** [s.startsWith(p)] *)
Fixpoint startsWith (p s : text) : bool :=
  match p, s with
  | [], _ => true
  | a :: p', b :: s' => (a =? b)%N && startsWith p' s'
  | _ :: _, [] => false
  end.

(** [s.split(sep)] for a separator of one unit or more, scanning from the
    left; [skip] counts the units of a separator just matched that are still
    to be passed over. *)
Fixpoint splitOn (sep : text) (skip : nat) (s : text) : list text :=
  match s with
  | [] => [[]]
  | c :: r =>
      match skip with
      | S k => splitOn sep k r
      | O =>
          if startsWith sep s then [] :: splitOn sep (List.length sep - 1) r
          else match splitOn sep 0 r with
               | p :: ps => (c :: p) :: ps
               | [] => [[c]]
               end
      end
  end.

(** [rows.join(sep)] on an array of strings. *)
Fixpoint joinText (sep : text) (rows : list text) : text :=
  match rows with
  | [] => []
  | [row] => row
  | row :: rest => row ++ sep ++ joinText sep rest
  end.

(** [s.replace(pat, rep)] for a string pattern: the first occurrence only. *)
Fixpoint replaceFirst (pat rep : text) (s : text) : text :=
  if startsWith pat s then rep ++ skipn (List.length pat) s
  else match s with
       | [] => []
       | c :: r => c :: replaceFirst pat rep r
       end.

(** [a === b] on strings. *)
Fixpoint sameText (a b : text) : bool :=
  match a, b with
  | [], [] => true
  | x :: a', y :: b' => (x =? y)%N && sameText a' b'
  | _, _ => false
  end.

(** [s.split(/\s+/)]: the pieces between maximal runs of white space;
    [inRun] says that the unit before was white space of the current run. *)
Fixpoint splitWhiteSpace (inRun : bool) (s : text) : list text :=
  match s with
  | [] => [[]]
  | c :: r =>
      if isWhiteSpace c then
        if inRun then splitWhiteSpace true r else [] :: splitWhiteSpace true r
      else match splitWhiteSpace false r with
           | p :: ps => (c :: p) :: ps
           | [] => [[c]]
           end
  end.

(** [getCsrfToken()], [cookie] being [document.cookie]. *)
Definition getCsrfToken (cookie : text) : text :=
  let found := find (fun row => startsWith (lit "csrftoken=") row)
                 (splitOn (lit "; ") 0 cookie) in
  let cookieValue :=
    match found with
    | Some row => nth_error (split equals row) 1
    | None => None
    end in
  match cookieValue with
  | Some v => v
  | None => []
  end.

(** [countWords(text)] *)
Definition countWords (t : text) : Z :=
  Z.of_nat
    (List.length
       (filter (fun word => 0 <? Z.of_nat (List.length word))
          (splitWhiteSpace false (trim t)))).

(** [ComponentLoader.getCurrentPage()], [pathname] being
    [window.location.pathname]; [pop()] takes the last piece, and [split]
    always yields one. *)
Definition getCurrentPage (pathname : text) : text :=
  let popped := last (split slash pathname) [] in
  let replaced := replaceFirst (lit ".html") [] popped in
  let filename := match replaced with [] => lit "index" | _ => replaced end in
  if sameText filename (lit "index") then lit "home" else filename.

(** The words of a text counted one by one: a word begins wherever something
    that is not white space follows white space or the beginning. *)
Fixpoint wordStarts (afterSpace : bool) (s : text) : Z :=
  match s with
  | [] => 0
  | c :: r =>
      if isWhiteSpace c then wordStarts true r
      else (if afterSpace then 1 else 0) + wordStarts false r
  end.

End Strings.

(** ** The handlers of the upload response *)

Module Upload.
Import JS Session.

(** What the handlers of [uploadFileToServer] do, in order.  [storeFileInfo]
    is the assignment [currentFileInfo = data.file_info]; [showResultsLater]
    the timer that hides the loading screen and calls
    [showFileTranslationResults(data)]. *)
Inductive effect :=
| setProgress (width text : string)
| hideFileUploadLoading
| notify (message : list piece) (type : string)
| storeFileInfo (file_info : value)
| showResultsLater (ms : Z) (data : value).

(** [typeof data !== 'object' || data === null] *)
Definition notAnObject (data : value) : bool :=
  match data with
  | Obj _ | Arr _ => false
  | _ => true
  end.

(** [xhr.onload] of [uploadFileToServer]. *)
Definition onload (xhr : Response) : list effect :=
  if status xhr =? 200 then
    match parsed xhr with
    | Some data =>
        if notAnObject data then
          [hideFileUploadLoading;
           notify [Lit "Upload failed: Invalid response format"] "error"]
        else if truthy (get data "success") then
          [storeFileInfo (get data "file_info");
           setProgress "95%" "Processing file...";
           showResultsLater 500 data]
          ++ (if truthy (get data "extraction_error")
              then [notify [Lit "Warning: "; Interp (get data "extraction_error")]
                      "warning"]
              else [])
        else
          [hideFileUploadLoading;
           notify [Lit "Upload failed: "; Interp (get data "error")] "error"]
    | None =>
        [hideFileUploadLoading;
         notify [Lit "Upload failed: Invalid response format"] "error"]
    end
  else
    [hideFileUploadLoading;
     notify [Lit "Upload failed: HTTP "; Interp (Num (inject_Z (status xhr)));
             Lit " - "; Lit (responseText xhr)] "error"].

(** [xhr.onerror] and [xhr.ontimeout] of [uploadFileToServer]. *)
Definition onerror : list effect :=
  [hideFileUploadLoading; notify [Lit "Upload failed: Network error"] "error"].

Definition ontimeout : list effect :=
  [hideFileUploadLoading;
   notify [Lit "Upload failed: Timeout - file too large or slow connection"] "error"].

Definition isError (e : effect) : bool :=
  match e with
  | notify _ t => String.eqb t "error"
  | _ => false
  end.

Definition showsResults (e : effect) : bool :=
  match e with
  | showResultsLater _ _ => true
  | _ => false
  end.

Definition storesFileInfo (e : effect) : bool :=
  match e with
  | storeFileInfo _ => true
  | _ => false
  end.

(** The test [onload] makes before it goes on to the results. *)
Definition accepted (xhr : Response) : bool :=
  (status xhr =? 200)
  && match parsed xhr with
     | Some data => negb (notAnObject data) && truthy (get data "success")
     | None => false
     end.

End Upload.

(** ** The text translator of [script.js] *)

Module Translator.
Import JS.

(** The nodes [performTranslation] and [setLoadingState] look at. *)
Record Page := {
  inputText : text;                     (* #inputText.value *)
  outputText : text;                    (* #outputText.value *)
  outputText_error : bool;              (* #outputText has class error *)
  sourceLanguage : string;              (* #sourceLanguage.value *)
  targetLanguage : string;              (* #targetLanguage.value *)
  targetLanguageText : option string;   (* text of the option selected in #targetLanguage, if one is *)
  hostname : string;                    (* window.location.hostname *)
  translateBtn_loading : bool;
  translateBtn_disabled : bool;
  inputText_disabled : bool;
  copyBtn_disabled : bool
}.

Inductive effect :=
| showNotification (message type : string)
| fetchTranslate (url : string) (text : text) (target_language : string).

(** [setLoadingState(loading)] *)
Definition setLoadingState (loading : bool) (p : Page) : Page :=
  if loading then
    {| inputText := inputText p; outputText := outputText p;
       outputText_error := outputText_error p;
       sourceLanguage := sourceLanguage p; targetLanguage := targetLanguage p;
       targetLanguageText := targetLanguageText p; hostname := hostname p;
       translateBtn_loading := true; translateBtn_disabled := true;
       inputText_disabled := true; copyBtn_disabled := true |}
  else
    {| inputText := inputText p; outputText := outputText p;
       outputText_error := outputText_error p;
       sourceLanguage := sourceLanguage p; targetLanguage := targetLanguage p;
       targetLanguageText := targetLanguageText p; hostname := hostname p;
       translateBtn_loading := false; translateBtn_disabled := false;
       inputText_disabled := false;
       copyBtn_disabled :=
         match outputText p with
         | [] => copyBtn_disabled p
         | _ => false
         end |}.

Definition addErrorClass (p : Page) : Page :=
  {| inputText := inputText p; outputText := outputText p;
     outputText_error := true;
     sourceLanguage := sourceLanguage p; targetLanguage := targetLanguage p;
     targetLanguageText := targetLanguageText p; hostname := hostname p;
     translateBtn_loading := translateBtn_loading p;
     translateBtn_disabled := translateBtn_disabled p;
     inputText_disabled := inputText_disabled p;
     copyBtn_disabled := copyBtn_disabled p |}.

Definition apiUrl (hostname : string) : string :=
  if String.eqb hostname "localhost" || String.eqb hostname "127.0.0.1"
  then "http://127.0.0.1:8000/api/translate/"
  else "/api/translate/".

(** [performTranslation()] up to the point where it awaits [fetch].  Reading
    the text of the selected option throws inside the [try] when no option is
    selected; the [catch] and the [finally] run then. *)
Definition performTranslation (p : Page) : Page * list effect :=
  let text := trim (inputText p) in
  match text with
  | [] => (p, [showNotification "Please enter text to translate" "error"])
  | _ =>
      if String.eqb (sourceLanguage p) (targetLanguage p)
         && negb (String.eqb (sourceLanguage p) "auto")
      then (p, [showNotification "Source and target languages cannot be the same"
                  "error"])
      else
        let p := setLoadingState true p in
        match targetLanguageText p with
        | Some label => (p, [fetchTranslate (apiUrl (hostname p)) text label])
        | None =>
            (setLoadingState false (addErrorClass p),
             [showNotification "Translation failed. Please try again." "error"])
        end
  end.

Definition isFetch (e : effect) : bool :=
  match e with
  | fetchTranslate _ _ _ => true
  | _ => false
  end.

End Translator.

(** ** The sign-in page, [login.js] *)

Module Login.
Import JS.

Record LoginForm := {
  loginEmail : text; loginPassword : text; rememberMe : bool
}.

Record SignupForm := {
  signupName : text; signupEmail : text; signupPassword : text;
  confirmPassword : text; agreeTerms : bool
}.

(** The objects the handlers hand to [JSON.stringify]. *)
Inductive authData :=
| loginData (email : text) (loginTime : string) (rememberMe : bool)
| signupData (name email : text) (loginTime : string) (isNewUser : bool).

(** A storage area: the items set so far, the latest first. *)
Definition Storage := list (string * authData).

Definition setItem (key : string) (item : authData) (area : Storage) : Storage :=
  (key, item) :: area.

Fixpoint getItem (key : string) (area : Storage) : option authData :=
  match area with
  | (k, item) :: r => if String.eqb key k then Some item else getItem key r
  | [] => None
  end.

Record Browser := {
  localStorage : Storage;
  sessionStorage : Storage;
  submitBtn_loading : bool;      (* the submit button has class loading *)
  submitBtn_text : string        (* its textContent *)
}.

Inductive effect :=
| showAuthMessage (message type : string)
| redirectLater (href : string) (ms : Z).

Definition set_button (loading : bool) (label : string) (b : Browser) : Browser :=
  {| localStorage := localStorage b; sessionStorage := sessionStorage b;
     submitBtn_loading := loading; submitBtn_text := label |}.

Definition set_localStorage (area : Storage) (b : Browser) : Browser :=
  {| localStorage := area; sessionStorage := sessionStorage b;
     submitBtn_loading := submitBtn_loading b; submitBtn_text := submitBtn_text b |}.

Definition set_sessionStorage (area : Storage) (b : Browser) : Browser :=
  {| localStorage := localStorage b; sessionStorage := area;
     submitBtn_loading := submitBtn_loading b; submitBtn_text := submitBtn_text b |}.

(** [handleLogin(e)]; [resolved] says whether the promise of
    [simulateAuthRequest] resolved, [now] is [new Date().toISOString()]. *)
Definition handleLogin (form : LoginForm) (resolved : bool) (now : string)
    (b : Browser) : Browser * list effect :=
  let b := set_button true "Signing In..." b in
  let '(b, effects) :=
    if resolved then
      let authData := loginData (loginEmail form) now (rememberMe form) in
      let b :=
        if rememberMe form
        then set_localStorage (setItem "transverse_auth" authData (localStorage b)) b
        else set_sessionStorage (setItem "transverse_auth" authData (sessionStorage b)) b in
      (b, [showAuthMessage "Login successful! Redirecting..." "success";
           redirectLater "index.html" 1500])
    else
      (b, [showAuthMessage "Login failed. Please check your credentials." "error"]) in
  (set_button false "Sign In" b, effects).

(** [handleSignup(e)] *)
Definition handleSignup (form : SignupForm) (resolved : bool) (now : string)
    (b : Browser) : Browser * list effect :=
  if negb (Strings.sameText (signupPassword form) (confirmPassword form)) then
    (b, [showAuthMessage "Passwords do not match." "error"])
  else if negb (agreeTerms form) then
    (b, [showAuthMessage "Please agree to the Terms of Service and Privacy Policy."
           "error"])
  else if Z.of_nat (List.length (signupPassword form)) <? 8 then
    (b, [showAuthMessage "Password must be at least 8 characters long." "error"])
  else
    let b := set_button true "Creating Account..." b in
    let '(b, effects) :=
      if resolved then
        let authData := signupData (signupName form) (signupEmail form) now true in
        (set_sessionStorage (setItem "transverse_auth" authData (sessionStorage b)) b,
         [showAuthMessage "Account created successfully! Redirecting..." "success";
          redirectLater "index.html" 1500])
      else
        (b, [showAuthMessage "Signup failed. Please try again." "error"]) in
    (set_button false "Create Account" b, effects).

(** The three checks of [handleSignup], all passed. *)
Definition signupValid (form : SignupForm) : bool :=
  Strings.sameText (signupPassword form) (confirmPassword form)
  && agreeTerms form
  && negb (Z.of_nat (List.length (signupPassword form)) <? 8).

End Login.

(** ** Kinds of events *)

Module Events.
Import Session.

(** The upload's results being shown: the one event that loads file data. *)
Definition isResultsShown (e : event) : bool :=
  match e with
  | ResultsShown _ => true
  | _ => false
  end.

(** A translate response coming in: the one event that can set the download
    locator. *)
Definition isTranslateDone (e : event) : bool :=
  match e with
  | TranslateDone _ _ _ => true
  | _ => false
  end.

End Events.

(** ** Proof steps used more than once *)

(** Split on whether the estimate node exists, wherever [updateTimeEstimate]
    is applied. *)
Ltac session_fields :=
  repeat match goal with
         | |- context [Session.updateTimeEstimate ?x ?s] =>
             unfold Session.updateTimeEstimate; destruct (Session.timeEstimate s)
         end; simpl.

(** Close a goal [P s'] from [P s] by a lemma that asks for three fields of
    [s'] to be those of [s]. *)
Ltac unchanged_by same :=
  match goal with
  | Hw : ?P ?s |- ?P _ =>
      apply (same s); [reflexivity | reflexivity | reflexivity | exact Hw]
  end.

(** ** Sample runs *)

Example parseInt_examples :
  map JS.parseInt (map JS.lit ["12"; " 7px"; "-3"; "0x1F"; "-"; "abc"; "+4.9"; "08"])%string
  = [Some 12; Some 7; Some (-3); Some 31; None; None; Some 4; Some 8].
Proof. reflexivity. Qed.

Example split_examples :
  JS.split JS.comma (JS.lit "1,,2") = [JS.lit "1"; []; JS.lit "2"]
  /\ JS.split JS.hyphen (JS.lit "-5") = [[]; JS.lit "5"]
  /\ JS.split JS.comma [] = [[]].
Proof. repeat split. Qed.

Example sort_join_example :
  JS.join "," (JS.sort [8; 1; 5; 3]) = "1,3,5,8"%string.
Proof. reflexivity. Qed.

Example parse_1_3_5_8 :
  let s := Session.showFileTranslationResults
             {| Session.file_info := {| Session.pages := 10; Session.extension := ".pdf" |} |}
             (Session.initial "French") in
  Session.selectedPages (Session.parsePageInput (JS.lit "1,3,5-8") s) = [1; 3; 5; 6; 7; 8]
  /\ Session.selectedPages (Session.parsePageInput (JS.lit "5-3") s) = []
  /\ Session.selectedPages (Session.parsePageInput (JS.lit "  ") s) = []
  /\ Session.selectedPages (Session.parsePageInput (JS.lit "9-12, 2 ,x, 0x3,2") s) = [2; 3; 9; 10]
  /\ Session.timeEstimate (Session.parsePageInput (JS.lit "1-10") s) = Some "45s"%string
  /\ Session.selectedPages (Session.selectAllPages s) = [1; 2; 3; 4; 5; 6; 7; 8; 9; 10].
Proof. vm_compute. repeat split. Qed.

Example doubles_examples :
  Machine.roundToDouble 9007199254740993 = Machine.Finite 9007199254740992
  /\ Machine.roundToDouble 9007199254740995 = Machine.Finite 9007199254740996
  /\ Machine.succ (Machine.Finite 9007199254740991) = Machine.Finite 9007199254740992
  /\ Machine.succ (Machine.Finite 9007199254740992) = Machine.Finite 9007199254740992
  /\ Machine.roundToDouble (2 ^ 1024 - 2 ^ 970 - 1) = Machine.Finite (2 ^ 1024 - 2 ^ 971)
  /\ Machine.roundToDouble (2 ^ 1024 - 2 ^ 970) = Machine.Infinite false
  /\ Machine.parseInt (JS.lit "123456789012345678901234567890")
     = Some (Machine.Finite 123456789012345677877719597056).
Proof. vm_compute. repeat split. Qed.

Example parse_1_3_5_8_on_doubles :
  let s := Session.showFileTranslationResults
             {| Session.file_info := {| Session.pages := 10; Session.extension := ".pdf" |} |}
             (Session.initial "French") in
  Machine.parsePageInput 5 (JS.lit "1,3,5-8") s
  = Machine.Returned (Session.parsePageInput (JS.lit "1,3,5-8") s)
  /\ Machine.parsePageInput 4 (JS.lit "1,3,5-8") s = Machine.Unfinished
  /\ Machine.parsePageInput 2 (JS.lit "5-3, x, 7") s
     = Machine.Returned (Session.parsePageInput (JS.lit "7") s)
  /\ Machine.parsePageInput 100 (JS.lit "9007199254740993-9007199254740992") s
     = Machine.Unfinished
  /\ Session.selectedPages
       (Session.parsePageInput (JS.lit "9007199254740993-9007199254740992") s) = [].
Proof. vm_compute. repeat split. Qed.

Example submit_partial :
  snd (fst (Session.translateFileContent
              (Session.parsePageInput (JS.lit "1,3") uploaded3)))
  = [Session.startingTranslation;
     Session.xhrSend "POST" "http://127.0.0.1:8000/api/translate-pdf/"
       [("file"%string, Session.FileField report_pdf);
        ("target_language"%string, Session.TextField "French");
        ("service_name"%string, Session.TextField "gemini");
        ("pages"%string, Session.TextField "1,3")] 300000].
Proof. reflexivity. Qed.

(** ** Arrays of numbers: membership, order, sorting *)

Import JS Session.

Lemma includes_In x arr : includes x arr = true <-> In x arr.
Proof.
  unfold includes. rewrite existsb_exists. split.
  - intros (y & Hy & E). apply Z.eqb_eq in E. now subst.
  - intros H. exists x. split; [exact H | apply Z.eqb_refl].
Qed.

Lemma includes_not_In x arr : includes x arr = false <-> ~ In x arr.
Proof.
  rewrite <- includes_In. destruct (includes x arr); split; congruence.
Qed.

Lemma NoDup_push (x : Z) (arr : list Z) : NoDup arr -> ~ In x arr -> NoDup (arr ++ [x]).
Proof.
  intros Hnd Hx. apply NoDup_app; [exact Hnd | repeat constructor; intros [] | ].
  intros y Hy [E | []]. now subst.
Qed.

Lemma insert_asc_Permutation x l : Permutation (insert_asc x l) (x :: l).
Proof.
  induction l as [| y r IH]; simpl; [reflexivity | ].
  destruct (x <=? y); [reflexivity | ].
  rewrite IH. apply perm_swap.
Qed.

Lemma sort_Permutation l : Permutation (sort l) l.
Proof.
  induction l as [| x r IH]; simpl; [constructor | ].
  rewrite insert_asc_Permutation. now constructor.
Qed.

Lemma sort_In x l : In x (sort l) <-> In x l.
Proof.
  split; apply Permutation_in; [ | symmetry ]; apply sort_Permutation.
Qed.

Lemma insert_asc_Sorted x l : Sorted Z.le l -> Sorted Z.le (insert_asc x l).
Proof.
  induction 1 as [| y r Hr IH Hy]; simpl; [repeat constructor | ].
  destruct (x <=? y) eqn:E.
  - apply Z.leb_le in E. repeat constructor; assumption.
  - apply Z.leb_gt in E. constructor; [exact IH | ].
    destruct r as [| z r']; simpl.
    + constructor. lia.
    + destruct (x <=? z); constructor; [lia | now inversion Hy].
Qed.

Lemma sort_Sorted l : Sorted Z.le (sort l).
Proof.
  induction l; simpl; [constructor | now apply insert_asc_Sorted].
Qed.

Lemma Sorted_le_StronglySorted l : Sorted Z.le l -> StronglySorted Z.le l.
Proof. apply Sorted_StronglySorted. intros x y z. apply Z.le_trans. Qed.

Lemma Sorted_lt_StronglySorted l : Sorted Z.lt l -> StronglySorted Z.lt l.
Proof. apply Sorted_StronglySorted. intros x y z. apply Z.lt_trans. Qed.

(** An ascending arrangement is determined by its elements. *)
Lemma ascending_unique l1 :
  forall l2, StronglySorted Z.le l1 -> StronglySorted Z.le l2 ->
             Permutation l1 l2 -> l1 = l2.
Proof.
  induction l1 as [| a r1 IH]; intros l2 H1 H2 HP.
  - now apply Permutation_nil in HP.
  - destruct l2 as [| b r2]; [now apply Permutation_sym, Permutation_nil in HP | ].
    apply StronglySorted_inv in H1 as [H1 Ha].
    apply StronglySorted_inv in H2 as [H2 Hb].
    rewrite Forall_forall in Ha, Hb.
    assert (a = b) as ->.
    { assert (In a (b :: r2)) as [-> | Ia]
        by (eapply Permutation_in; [exact HP | now left]); [reflexivity | ].
      assert (In b (a :: r1)) as [-> | Ib]
        by (eapply Permutation_in; [symmetry; exact HP | now left]);
        [reflexivity | ].
      specialize (Ha _ Ib). specialize (Hb _ Ia). lia. }
    f_equal. apply IH; try assumption. eapply Permutation_cons_inv, HP.
Qed.

(** Whatever the engine's algorithm, [sort] is its result. *)
Lemma sort_unique l l' : Sorted Z.le l' -> Permutation l l' -> l' = sort l.
Proof.
  intros Hs HP. apply ascending_unique.
  - now apply Sorted_le_StronglySorted.
  - apply Sorted_le_StronglySorted, sort_Sorted.
  - rewrite <- HP. symmetry. apply sort_Permutation.
Qed.

Lemma Sorted_lt_le l : Sorted Z.lt l -> Sorted Z.le l.
Proof.
  induction 1 as [| x r Hr IH Hx]; constructor; [exact IH | ].
  destruct Hx; constructor. lia.
Qed.

Lemma sort_ascending l : Sorted Z.lt l -> sort l = l.
Proof.
  intros H. symmetry. apply sort_unique; [now apply Sorted_lt_le | reflexivity].
Qed.

Lemma Sorted_lt_NoDup l : Sorted Z.lt l -> NoDup l.
Proof.
  intros H. apply Sorted_lt_StronglySorted in H.
  induction H as [| x r Hr IH Hx]; constructor; [ | exact IH].
  intros Hin. rewrite Forall_forall in Hx. specialize (Hx _ Hin). lia.
Qed.

(** Distinct elements in ascending order are in strictly ascending order. *)
Lemma Sorted_le_NoDup_lt l : Sorted Z.le l -> NoDup l -> Sorted Z.lt l.
Proof.
  intros Hs Hnd. apply Sorted_le_StronglySorted in Hs.
  induction Hs as [| x r Hr IH Hx]; [constructor | ].
  apply NoDup_cons_iff in Hnd as [Hx' Hnd].
  constructor; [now apply IH | ].
  destruct r as [| y r']; constructor.
  apply Forall_inv in Hx.
  assert (x <> y) by (intros ->; apply Hx'; now left). lia.
Qed.

Lemma sort_NoDup_lt l : NoDup l -> Sorted Z.lt (sort l).
Proof.
  intros Hnd. apply Sorted_le_NoDup_lt; [apply sort_Sorted | ].
  eapply Permutation_NoDup; [symmetry; apply sort_Permutation | exact Hnd].
Qed.

(** ** Splitting a text *)

Lemma split_not_nil sep s : split sep s <> [].
Proof.
  destruct s as [| c r]; simpl; [discriminate | ].
  destruct (c =? sep)%N; [discriminate | ].
  destruct (split sep r); discriminate.
Qed.

(** No piece of a split holds the separator. *)
Lemma split_pieces sep s : forall p, In p (split sep s) -> ~ In sep p.
Proof.
  induction s as [| c r IH]; intros p Hp; simpl in Hp.
  - destruct Hp as [<- | []]. intros [].
  - destruct (c =? sep)%N eqn:E.
    + destruct Hp as [<- | Hp]; [intros [] | now apply IH].
    + apply N.eqb_neq in E.
      destruct (split sep r) as [| q qs] eqn:Es; simpl in Hp.
      * destruct Hp as [<- | []]. intros [H | []]. congruence.
      * destruct Hp as [<- | Hp].
        -- intros [H | H]; [congruence | ]. apply (IH q); [now left | exact H].
        -- apply IH. now right.
Qed.

(** ** Page selector *)

(** The range loop never pushes a page twice. *)
Lemma pushRange_NoDup fuel :
  forall i end_ arr, NoDup arr -> NoDup (pushRange fuel i end_ arr).
Proof.
  induction fuel as [| fuel IH]; intros i end_ arr Hnd; simpl; [exact Hnd | ].
  destruct (i <=? end_); [ | exact Hnd].
  apply IH. destruct (includes i arr) eqn:E; [exact Hnd | ].
  apply NoDup_push; [exact Hnd | now apply includes_not_In].
Qed.

(** The iteration count [parsePageInput] needs is [end - start + 1]; with at
    least that much fuel the loop has run to its exit test. *)
Lemma pushRange_fuel fuel :
  forall i end_ arr,
    (Z.to_nat (end_ - i + 1) <= fuel)%nat ->
    pushRange fuel i end_ arr = pushRange (Z.to_nat (end_ - i + 1)) i end_ arr.
Proof.
  induction fuel as [| fuel IH]; intros i end_ arr Hf.
  - now replace (Z.to_nat (end_ - i + 1)) with 0%nat by lia.
  - simpl. destruct (i <=? end_) eqn:E.
    + apply Z.leb_le in E.
      replace (Z.to_nat (end_ - i + 1))
        with (S (Z.to_nat (end_ - (i + 1) + 1))) by lia.
      simpl. apply Z.leb_le in E. rewrite E. apply IH. lia.
    + apply Z.leb_gt in E.
      now replace (Z.to_nat (end_ - i + 1)) with 0%nat by lia.
Qed.

(** What the loop leaves in the array: what was there, and [start..end]. *)
Lemma pushRange_In fuel :
  forall i end_ arr x,
    (Z.to_nat (end_ - i + 1) <= fuel)%nat ->
    In x (pushRange fuel i end_ arr) <-> In x arr \/ i <= x <= end_.
Proof.
  induction fuel as [| fuel IH]; intros i end_ arr x Hf; simpl.
  - split; [now left | intros [H | H]; [exact H | lia]].
  - destruct (i <=? end_) eqn:E.
    + apply Z.leb_le in E. rewrite IH by lia.
      destruct (includes i arr) eqn:Ei.
      * apply includes_In in Ei. split.
        -- intros [H | H]; [now left | right; lia].
        -- intros [H | H]; [now left | ].
           destruct (Z.eq_dec x i) as [-> | Hne]; [now left | right; lia].
      * rewrite in_app_iff. simpl. split.
        -- intros [[H | [<- | []]] | H]; [now left | right; lia | right; lia].
        -- intros [H | H]; [now left; left | ].
           destruct (Z.eq_dec x i) as [-> | Hne]; [left; right; now left | right; lia].
    + apply Z.leb_gt in E. split; [now left | intros [H | H]; [exact H | lia]].
Qed.

Lemma addPart_NoDup arr part : NoDup arr -> NoDup (addPart arr part).
Proof.
  intros Hnd. unfold addPart.
  destruct (includes_unit hyphen (trim part)).
  - destruct (split hyphen (trim part)) as [| p0 [| p1 [| p2 ps]]]; try exact Hnd.
    destruct (parseInt (trim p0)) as [start | ]; [ | exact Hnd].
    destruct (parseInt (trim p1)) as [end_ | ]; [ | exact Hnd].
    destruct (start <=? end_); [now apply pushRange_NoDup | exact Hnd].
  - destruct (parseInt (trim part)) as [pageNum | ]; [ | exact Hnd].
    destruct (includes pageNum arr) eqn:E; [exact Hnd | ].
    apply NoDup_push; [exact Hnd | now apply includes_not_In].
Qed.

Lemma forEach_addPart_NoDup parts :
  forall arr, NoDup arr -> NoDup (fold_left addPart parts arr).
Proof.
  induction parts as [| part parts IH]; intros arr Hnd; simpl; [exact Hnd | ].
  now apply IH, addPart_NoDup.
Qed.

Lemma selectedPages_updateTimeEstimate sel s :
  selectedPages (updateTimeEstimate sel s) = selectedPages s.
Proof. unfold updateTimeEstimate. now destruct (timeEstimate s). Qed.

Lemma maxPages_pageCount s data :
  currentFileData s = Some data -> 1 <= pages (file_info data) ->
  maxPages s = pages (file_info data).
Proof.
  intros Hd Hn. unfold maxPages. rewrite Hd.
  destruct (pages (file_info data) =? 0) eqn:E; [ | reflexivity].
  apply Z.eqb_eq in E. lia.
Qed.

(** The selection [parsePageInput] leaves, as a function of the text and the
    page bound alone. *)
Lemma selectedPages_parsePageInput value s :
  selectedPages (parsePageInput value s) =
  match trim value with
  | [] => []
  | input =>
      sort (filter (fun page => (1 <=? page) && (page <=? maxPages s))
              (fold_left addPart (split comma input) []))
  end.
Proof.
  unfold parsePageInput, deselectAllPages.
  destruct (trim value); now rewrite selectedPages_updateTimeEstimate.
Qed.

(** What one token adds to the pages collected so far. *)
Lemma addPart_In arr part x :
  In x (addPart arr part) <->
  In x arr \/ exists a b, Spec.tokenRange part = Some (a, b) /\ a <= x <= b.
Proof.
  unfold addPart, Spec.tokenRange.
  assert (Hnone : In x arr <->
                  In x arr \/ exists a b : Z, @None (Z * Z) = Some (a, b) /\ a <= x <= b).
  { split; [now left | intros [H | (a & b & H & _)]; [exact H | discriminate H]]. }
  destruct (includes_unit hyphen (trim part)).
  - destruct (split hyphen (trim part)) as [| p0 [| p1 [| p2 ps]]]; try exact Hnone.
    destruct (parseInt (trim p0)) as [start | ]; [ | exact Hnone].
    destruct (parseInt (trim p1)) as [end_ | ]; [ | exact Hnone].
    destruct (start <=? end_); [ | exact Hnone].
    rewrite pushRange_In by lia. split.
    + intros [H | H]; [now left | right; now exists start, end_].
    + intros [H | (a & b & E & H)]; [now left | right].
      injection E as <- <-. exact H.
  - destruct (parseInt (trim part)) as [pageNum | ]; [ | exact Hnone].
    assert (Hin : In x (arr ++ [pageNum]) <-> In x arr \/ x = pageNum).
    { rewrite in_app_iff. simpl. intuition congruence. }
    destruct (includes pageNum arr) eqn:E.
    + apply includes_In in E. split.
      * now left.
      * intros [H | (a & b & Eab & H)]; [exact H | ].
        injection Eab as <- <-. now replace x with pageNum by lia.
    + rewrite Hin. split.
      * intros [H | ->]; [now left | right]. exists pageNum, pageNum. split; [reflexivity | lia].
      * intros [H | (a & b & Eab & H)]; [now left | right].
        injection Eab as <- <-. lia.
Qed.

Lemma forEach_addPart_In parts :
  forall arr x,
    In x (fold_left addPart parts arr) <->
    In x arr
    \/ exists part a b,
         In part parts /\ Spec.tokenRange part = Some (a, b) /\ a <= x <= b.
Proof.
  induction parts as [| part parts IH]; intros arr x; simpl.
  - split; [now left | intros [H | (p & _ & _ & [] & _)]; exact H].
  - rewrite IH, addPart_In. split.
    + intros [[H | (a & b & E & H)] | (p & a & b & Hp & E & H)].
      * now left.
      * right. exists part, a, b. split; [now left | now split].
      * right. exists p, a, b. split; [now right | now split].
    + intros [H | (p & a & b & [<- | Hp] & E & H)].
      * left. now left.
      * left. right. now exists a, b.
      * right. now exists p, a, b.
Qed.


(** ** The page field on doubles: where it agrees with exact integers *)

(** Below 2^53 every integer is a double. *)
Lemma roundToDouble_exact z :
  Z.abs z < 2 ^ 53 -> Machine.roundToDouble z = Machine.Finite z.
Proof.
  intros H. unfold Machine.roundToDouble. cbv zeta.
  now rewrite (proj2 (Z.ltb_lt _ _) H).
Qed.

Lemma digit_nonneg radix c d : digit radix c = Some d -> 0 <= d.
Proof.
  unfold digit.
  destruct ((48 <=? c) && (c <=? 57))%N eqn:E1.
  - apply andb_true_iff in E1 as [E1 _]. apply N.leb_le in E1.
    destruct (Z.of_N c - 48 <? radix); [ | discriminate].
    intros H. injection H as <-. lia.
  - destruct ((97 <=? c) && (c <=? 102))%N eqn:E2.
    + apply andb_true_iff in E2 as [E2 _]. apply N.leb_le in E2.
      destruct (Z.of_N c - 87 <? radix); [ | discriminate].
      intros H. injection H as <-. lia.
    + destruct ((65 <=? c) && (c <=? 70))%N eqn:E3; [ | discriminate].
      apply andb_true_iff in E3 as [E3 _]. apply N.leb_le in E3.
      destruct (Z.of_N c - 55 <? radix); [ | discriminate].
      intros H. injection H as <-. lia.
Qed.

Lemma digits_nonneg radix s :
  0 <= radix ->
  forall acc m,
    match acc with Some a => 0 <= a | None => True end ->
    digits radix acc s = Some m -> 0 <= m.
Proof.
  intros Hr. induction s as [| c r IH]; intros acc m Hacc; simpl.
  - intros ->. exact Hacc.
  - destruct (digit radix c) as [d | ] eqn:Ed.
    + apply IH. apply digit_nonneg in Ed. destruct acc as [a | ]; nia.
    + intros ->. exact Hacc.
Qed.

Lemma trimStart_In c s : In c (trimStart s) -> In c s.
Proof.
  induction s as [| x r IH]; simpl; [tauto | ].
  destruct (isWhiteSpace x); [intros H; right; now apply IH | tauto].
Qed.

Lemma trim_In c s : In c (trim s) -> In c s.
Proof.
  unfold trim, trimEnd. intros H.
  apply in_rev, trimStart_In, in_rev in H. now apply trimStart_In.
Qed.

(** The radix [parseInt] settles on is 10 or 16. *)
Lemma radix_nonneg (s2 : text) :
  0 <= fst (match s2 with
            | 48%N :: x :: r =>
                if ((x =? 120) || (x =? 88))%N then (16, r) else (10, s2)
            | _ => (10, s2)
            end).
Proof.
  destruct s2 as [| c [| x r0]]; try (simpl; lia).
  - destruct c as [| p]; [simpl; lia | ].
    repeat (destruct p as [p | p | ]; try (simpl; lia)).
  - destruct c as [| p]; [simpl; lia | ].
    repeat (destruct p as [p | p | ]; try (simpl; lia)).
    destruct ((x =? 120) || (x =? 88))%N; simpl; lia.
Qed.

(** A numeral without minus sign is not negative. *)
Lemma parseInt_nonneg s z : ~ In hyphen s -> JS.parseInt s = Some z -> 0 <= z.
Proof.
  intros Hs. unfold JS.parseInt.
  assert (Hs1 : ~ In hyphen (trimStart s))
    by (intros H; now apply Hs, trimStart_In).
  assert (Hsign : exists s2,
             match trimStart s with
             | c :: r => if (c =? hyphen)%N then (-1, r)
                         else if (c =? plus)%N then (1, r) else (1, trimStart s)
             | [] => (1, trimStart s)
             end = (1, s2)).
  { destruct (trimStart s) as [| c r]; [now exists [] | ].
    destruct (N.eqb_spec c hyphen) as [-> | Hc]; [exfalso; apply Hs1; now left | ].
    destruct (c =? plus)%N; eauto. }
  destruct Hsign as [s2 ->].
  match goal with
  | |- (let '(radix, s3) := ?m in _) = _ -> _ =>
      assert (Hr : 0 <= fst m) by apply radix_nonneg;
      destruct m as [radix s3]
  end.
  simpl in Hr.
  destruct (digits radix None s3) as [m | ] eqn:Ed; [ | discriminate].
  intros H. injection H as <-.
  apply (digits_nonneg radix s3 Hr None m I) in Ed. now destruct m.
Qed.

(** Distinct integers of [0..bound-1] are at most [bound] many. *)
Lemma distinct_below_length (bound : Z) (arr : list Z) :
  NoDup arr -> Forall (fun x => 0 <= x < bound) arr -> lengthOf arr <= Z.max 0 bound.
Proof.
  intros Hnd Hall.
  assert (Hincl : incl arr (map Z.of_nat (seq 0 (Z.to_nat bound)))).
  { intros x Hx. rewrite Forall_forall in Hall. specialize (Hall x Hx).
    apply in_map_iff. exists (Z.to_nat x). split; [lia | ].
    apply in_seq. lia. }
  apply (NoDup_incl_length Hnd) in Hincl.
  rewrite length_map, length_seq in Hincl. unfold lengthOf. lia.
Qed.

Lemma includes_Finite x arr :
  Machine.includes (Machine.Finite x) (map Machine.Finite arr) = includes x arr.
Proof.
  unfold Machine.includes, includes.
  induction arr as [| y r IH]; simpl; [reflexivity | now rewrite IH].
Qed.

Lemma lengthOf_map {A B} (f : A -> B) (l : list A) : lengthOf (map f l) = lengthOf l.
Proof. unfold lengthOf. now rewrite length_map. Qed.

Lemma lengthOf_push {A} (l : list A) (x : A) : lengthOf (l ++ [x]) = lengthOf l + 1.
Proof. unfold lengthOf. rewrite length_app. simpl. lia. Qed.

(** Pushing a page that is new to distinct pages below the greatest array
    length stays within that length. *)
Lemma push_Finite x arr :
  NoDup arr -> Forall (fun y => 0 <= y < Machine.maxLength) arr ->
  0 <= x < Machine.maxLength -> ~ In x arr ->
  Machine.push (Machine.Finite x) (map Machine.Finite arr)
  = Machine.Returned (map Machine.Finite (arr ++ [x])).
Proof.
  intros Hnd Hall Hx Hnew. unfold Machine.push.
  assert (Hlen : lengthOf (arr ++ [x]) <= Z.max 0 Machine.maxLength).
  { apply distinct_below_length; [now apply NoDup_push | ].
    apply Forall_app. split; [exact Hall | now constructor]. }
  rewrite lengthOf_push in Hlen. rewrite lengthOf_map.
  replace (lengthOf arr <? Machine.maxLength) with true by (symmetry; apply Z.ltb_lt; lia).
  now rewrite map_app.
Qed.

(** Between pages below the greatest array length the loop of the script
    does what the loop on exact integers does, and comes to its end. *)
Lemma pushRange_agrees fuel :
  forall i end_ arr,
    0 <= i -> end_ < Machine.maxLength ->
    NoDup arr -> Forall (fun x => 0 <= x < Machine.maxLength) arr ->
    (Z.to_nat (end_ - i + 1) < fuel)%nat ->
    Machine.pushRange fuel (Machine.Finite i) (Machine.Finite end_)
      (map Machine.Finite arr)
    = Machine.Returned
        (map Machine.Finite (pushRange (Z.to_nat (end_ - i + 1)) i end_ arr)).
Proof.
  pose proof (eq_refl : Machine.maxLength = 4294967295) as Hmax.
  induction fuel as [| fuel IH]; intros i end_ arr Hi He Hnd Hall Hf; [lia | ].
  cbn [Machine.pushRange Machine.leb].
  destruct (i <=? end_) eqn:E.
  - apply Z.leb_le in E.
    replace (Z.to_nat (end_ - i + 1)) with (S (Z.to_nat (end_ - (i + 1) + 1))) by lia.
    cbn [pushRange]. rewrite (proj2 (Z.leb_le _ _) E), includes_Finite.
    assert (Hsucc : Machine.succ (Machine.Finite i) = Machine.Finite (i + 1))
      by (apply roundToDouble_exact; lia).
    destruct (includes i arr) eqn:Ei.
    + rewrite Hsucc. apply IH; try assumption; lia.
    + apply includes_not_In in Ei.
      rewrite push_Finite by (try assumption; lia).
      rewrite Hsucc. apply IH; try lia.
      * now apply NoDup_push.
      * apply Forall_app. split; [exact Hall | constructor; [lia | constructor]].
  - apply Z.leb_gt in E.
    now replace (Z.to_nat (end_ - i + 1)) with 0%nat by lia.
Qed.

Lemma includes_unit_absent c s : includes_unit c s = false -> ~ In c s.
Proof.
  unfold includes_unit. intros H Hin.
  assert (Ht : existsb (N.eqb c) s = true)
    by (apply existsb_exists; exists c; split; [exact Hin | apply N.eqb_refl]).
  congruence.
Qed.

Lemma pushRange_below fuel i end_ arr :
  (Z.to_nat (end_ - i + 1) <= fuel)%nat ->
  0 <= i -> end_ < Machine.maxLength ->
  Forall (fun x => 0 <= x < Machine.maxLength) arr ->
  Forall (fun x => 0 <= x < Machine.maxLength) (pushRange fuel i end_ arr).
Proof.
  intros Hf Hi He Hall. apply Forall_forall. intros x Hx.
  apply pushRange_In in Hx; [ | exact Hf].
  rewrite Forall_forall in Hall.
  destruct Hx as [Hx | Hx]; [now apply Hall | lia].
Qed.

(** One token whose numbers are below the greatest array length: the script
    adds what the exact integers add, and returns. *)
Lemma addPart_agrees fuel arr part :
  (Z.to_nat Machine.maxLength < fuel)%nat ->
  NoDup arr -> Forall (fun x => 0 <= x < Machine.maxLength) arr ->
  forallb (fun number => number <? Machine.maxLength) (Machine.tokenNumbers part) = true ->
  Machine.addPart fuel (map Machine.Finite arr) part
  = Machine.Returned (map Machine.Finite (addPart arr part))
  /\ Forall (fun x => 0 <= x < Machine.maxLength) (addPart arr part).
Proof.
  pose proof (eq_refl : Machine.maxLength = 4294967295) as Hmax.
  intros Hf Hnd Hall Hb.
  unfold Machine.addPart, addPart, Machine.tokenNumbers, Machine.parseInt in *.
  destruct (includes_unit hyphen (trim part)) eqn:Eh.
  - pose proof (split_pieces hyphen (trim part)) as Hpieces.
    destruct (split hyphen (trim part)) as [| p0 [| p1 [| p2 ps]]];
      try (split; [reflexivity | exact Hall]).
    assert (H0 : ~ In hyphen (trim p0))
      by (intros H; apply trim_In in H; revert H; apply Hpieces; now left).
    assert (H1 : ~ In hyphen (trim p1))
      by (intros H; apply trim_In in H; revert H; apply Hpieces; right; now left).
    destruct (JS.parseInt (trim p0)) as [start | ] eqn:E0;
      [ | split; [reflexivity | exact Hall]].
    destruct (JS.parseInt (trim p1)) as [end_ | ] eqn:E1;
      [ | split; [reflexivity | exact Hall]].
    apply parseInt_nonneg in E0; [ | exact H0].
    apply parseInt_nonneg in E1; [ | exact H1].
    cbn [forallb] in Hb.
    apply andb_true_iff in Hb as [Hb0 Hb]. apply andb_true_iff in Hb as [Hb1 _].
    apply Z.ltb_lt in Hb0, Hb1.
    cbn [option_map].
    rewrite !roundToDouble_exact by lia. cbn [Machine.leb].
    destruct (start <=? end_) eqn:E; [ | split; [reflexivity | exact Hall]].
    split.
    + apply pushRange_agrees; try assumption; lia.
    + apply pushRange_below; try assumption; lia.
  - destruct (JS.parseInt (trim part)) as [pageNum | ] eqn:E;
      [ | split; [reflexivity | exact Hall]].
    apply parseInt_nonneg in E; [ | now apply includes_unit_absent].
    cbn [forallb] in Hb. apply andb_true_iff in Hb as [Hb _]. apply Z.ltb_lt in Hb.
    cbn [option_map]. rewrite roundToDouble_exact by lia.
    rewrite includes_Finite.
    destruct (includes pageNum arr) eqn:Ei; [split; [reflexivity | exact Hall] | ].
    apply includes_not_In in Ei. split.
    + apply push_Finite; try assumption; lia.
    + apply Forall_app. split; [exact Hall | constructor; [lia | constructor]].
Qed.

Lemma forEach_agrees fuel parts :
  (Z.to_nat Machine.maxLength < fuel)%nat ->
  forall arr,
    NoDup arr -> Forall (fun x => 0 <= x < Machine.maxLength) arr ->
    forallb (fun part =>
               forallb (fun number => number <? Machine.maxLength)
                 (Machine.tokenNumbers part)) parts = true ->
    Machine.forEach fuel parts (map Machine.Finite arr)
    = Machine.Returned (map Machine.Finite (fold_left addPart parts arr)).
Proof.
  intros Hf. induction parts as [| part parts IH]; intros arr Hnd Hall Hb;
    [reflexivity | ].
  cbn [forallb] in Hb. apply andb_true_iff in Hb as [Hpart Hparts].
  destruct (addPart_agrees fuel arr part Hf Hnd Hall Hpart) as [Hrun Hbelow].
  cbn [Machine.forEach fold_left]. rewrite Hrun.
  apply IH; [now apply addPart_NoDup | exact Hbelow | exact Hparts].
Qed.

Lemma within_Finite maxPages arr :
  Machine.within maxPages (map Machine.Finite arr)
  = filter (fun page => (1 <=? page) && (page <=? maxPages)) arr.
Proof.
  induction arr as [| x r IH]; simpl; [reflexivity | ].
  rewrite IH. now destruct ((1 <=? x) && (x <=? maxPages)).
Qed.

(** A text whose numbers are all below the greatest array length: with the
    fuel for a loop over that many pages, the script returns the session
    that the exact integers give. *)
Lemma parsePageInput_agrees fuel value s :
  (Z.to_nat Machine.maxLength < fuel)%nat ->
  Machine.numbersBelow Machine.maxLength value = true ->
  Machine.parsePageInput fuel value s = Machine.Returned (parsePageInput value s).
Proof.
  intros Hf Hb. unfold Machine.parsePageInput, parsePageInput, Machine.numbersBelow in *.
  destruct (trim value) as [| c input]; [reflexivity | ].
  change (@nil Machine.number) with (map Machine.Finite []).
  rewrite (forEach_agrees fuel _ Hf [] (NoDup_nil Z) (Forall_nil _) Hb).
  now rewrite within_Finite.
Qed.





(** The selection [parsePageInput] leaves is strictly ascending. *)
Lemma parsePageInput_ascending value s :
  Sorted Z.lt (selectedPages (parsePageInput value s)).
Proof.
  rewrite selectedPages_parsePageInput.
  destruct (trim value) as [| c input]; [constructor | ].
  apply sort_NoDup_lt, NoDup_filter, forEach_addPart_NoDup. constructor.
Qed.





(** ** Toggling a page *)

(** [indexOf] finds the first slot that holds the page, if there is one. *)
Lemma indexOf_from_absent x arr : forall i, ~ In x arr -> indexOf_from i x arr = -1.
Proof.
  induction arr as [| y r IH]; intros i Hx; simpl; [reflexivity | ].
  destruct (y =? x) eqn:E.
  - apply Z.eqb_eq in E. exfalso. apply Hx. now left.
  - apply IH. intros H. apply Hx. now right.
Qed.

Lemma indexOf_from_present x arr :
  forall i, In x arr ->
    exists before after,
      arr = before ++ x :: after /\ ~ In x before
      /\ indexOf_from i x arr = i + Z.of_nat (List.length before).
Proof.
  induction arr as [| y r IH]; intros i Hx; [destruct Hx | ].
  simpl. destruct (y =? x) eqn:E.
  - apply Z.eqb_eq in E. subst y. exists [], r. simpl.
    repeat split; [tauto | lia].
  - apply Z.eqb_neq in E. destruct Hx as [Hx | Hx]; [contradiction | ].
    destruct (IH (i + 1) Hx) as (before & after & -> & Hb & Hi).
    exists (y :: before), after. simpl List.length.
    repeat split; [ | lia].
    intros [H | H]; [contradiction | now apply Hb].
Qed.

Lemma splice1_middle before x after :
  splice1 (Z.of_nat (List.length before)) (before ++ x :: after) = before ++ after.
Proof.
  unfold splice1. rewrite Nat2Z.id.
  induction before as [| y r IH]; simpl; [reflexivity | ].
  simpl in IH. now rewrite IH.
Qed.

Lemma selectedPages_togglePageSelection page s :
  selectedPages (togglePageSelection page s) = sort (toggled page (selectedPages s)).
Proof.
  unfold togglePageSelection. now rewrite selectedPages_updateTimeEstimate.
Qed.

Lemma toggled_present page sel :
  In page sel ->
  exists before after,
    sel = before ++ page :: after /\ ~ In page before
    /\ toggled page sel = before ++ after.
Proof.
  intros Hin. unfold toggled, indexOf.
  destruct (indexOf_from_present page sel 0 Hin) as (before & after & E & Hb & Hi).
  exists before, after. rewrite Hi. repeat split; try assumption.
  replace (0 + Z.of_nat (List.length before) >? -1) with true
    by (symmetry; apply Z.gtb_lt; lia).
  simpl Z.add at 1. subst sel. apply splice1_middle.
Qed.

Lemma toggled_absent page sel : ~ In page sel -> toggled page sel = sel ++ [page].
Proof.
  intros Hin. unfold toggled, indexOf. now rewrite indexOf_from_absent.
Qed.

(** Toggling a page of a repetition-free selection flips its membership and
    nobody else's. *)
Lemma toggled_In page sel q :
  NoDup sel ->
  In q (toggled page sel) <->
  (q <> page /\ In q sel) \/ (q = page /\ ~ In page sel).
Proof.
  intros Hnd. destruct (in_dec Z.eq_dec page sel) as [Hin | Hin].
  - destruct (toggled_present page sel Hin) as (before & after & -> & Hb & ->).
    apply NoDup_remove_2 in Hnd.
    rewrite !in_app_iff in *. simpl. split.
    + intros H. left. split; [intros -> | ]; tauto.
    + intros [[Hq [H | [H | H]]] | [_ H]]; try tauto. congruence.
  - rewrite toggled_absent by exact Hin. rewrite in_app_iff. simpl. split.
    + intros [H | [<- | []]]; [left | right]; split; try tauto. now intros ->.
    + intros [[_ H] | [-> _]]; tauto.
Qed.

Lemma toggled_NoDup page sel : NoDup sel -> NoDup (toggled page sel).
Proof.
  intros Hnd. destruct (in_dec Z.eq_dec page sel) as [Hin | Hin].
  - destruct (toggled_present page sel Hin) as (before & after & -> & _ & ->).
    now apply NoDup_remove_1 in Hnd.
  - rewrite toggled_absent by exact Hin. now apply NoDup_push.
Qed.

(** Toggling the same page again undoes the first toggle, on any strictly
    ascending selection and for any page. *)
Lemma toggle_involutive page s :
  Sorted Z.lt (selectedPages s) ->
  selectedPages (togglePageSelection page (togglePageSelection page s))
  = selectedPages s.
Proof.
  intros Hs. pose proof (Sorted_lt_NoDup _ Hs) as Hnd.
  rewrite !selectedPages_togglePageSelection.
  symmetry. apply sort_unique; [now apply Sorted_lt_le | ].
  set (sel := selectedPages s) in *.
  destruct (in_dec Z.eq_dec page sel) as [Hin | Hin].
  - destruct (toggled_present page sel Hin) as (before & after & E & Hb & ->).
    assert (Hout : ~ In page (sort (before ++ after))).
    { rewrite sort_In. rewrite E in Hnd. now apply NoDup_remove_2 in Hnd. }
    rewrite (toggled_absent _ _ Hout), E.
    rewrite <- Permutation_cons_append, sort_Permutation.
    apply Permutation_middle.
  - rewrite (toggled_absent _ _ Hin).
    assert (Hnow : In page (sort (sel ++ [page])))
      by (rewrite sort_In, in_app_iff; right; now left).
    destruct (toggled_present _ _ Hnow) as (before & after & E & _ & ->).
    apply Permutation_cons_inv with (a := page).
    rewrite Permutation_middle, <- E, sort_Permutation.
    symmetry. apply Permutation_cons_append.
Qed.

(** C7.  On a selection of a file with [n >= 1] pages (strictly ascending,
    within [1..n]) and for a page [p] of the file, toggling [p] twice gives
    back the selection there was. *)
Theorem togglePageSelection_twice (n page : Z) (s : Session) :
  1 <= n ->
  Sorted Z.lt (selectedPages s) ->
  Forall (fun p => 1 <= p <= n) (selectedPages s) ->
  1 <= page <= n ->
  selectedPages (togglePageSelection page (togglePageSelection page s))
  = selectedPages s.
Proof.
  intros _ Hs _ _. now apply toggle_involutive.
Qed.

Lemma togglePageSelection_twice_witness :
  selectedPages
    (togglePageSelection 2
       (togglePageSelection 2 (parsePageInput (lit "1,3") uploaded3)))
  = [1; 3].
Proof.
  apply (togglePageSelection_twice 3 2 (parsePageInput (lit "1,3") uploaded3)).
  - lia.
  - repeat constructor.
  - repeat constructor; vm_compute; congruence.
  - lia.
Defined.

(** The icons [generatePagePreviews] renders are numbered [1..n]. *)
Lemma pageIcons_generatePagePreviews data s p :
  1 <= pages (file_info data) ->
  In p (pageIcons (generatePagePreviews data s)) <-> 1 <= p <= pages (file_info data).
Proof.
  intros Hn. unfold generatePagePreviews. simpl.
  replace (pages (file_info data) =? 0) with false
    by (symmetry; apply Z.eqb_neq; lia).
  unfold pageNumbers. rewrite in_map_iff. split.
  - intros (k & <- & Hk). apply in_seq in Hk. lia.
  - intros Hp. exists (Z.to_nat p). split; [lia | apply in_seq; lia].
Qed.

(** C3, as the claim has it, fails: on a three-page file with nothing
    selected, toggling page 5 selects page 5. *)
Lemma togglePageSelection_out_of_range_counterexample :
  maxPages uploaded3 = 3
  /\ selectedPages uploaded3 = []
  /\ selectedPages (togglePageSelection 5 uploaded3) = [5]
  /\ ~ (forall (n page : Z) (s : Session),
          1 <= n -> maxPages s = n -> page < 1 \/ n < page ->
          selectedPages (togglePageSelection page s) = selectedPages s).
Proof.
  repeat split.
  intros H. specialize (H 3 5 uploaded3).
  discriminate H; [lia | reflexivity | lia].
Qed.

(** C3, amended.  [togglePageSelection] consults no page bound: on a strictly
    ascending selection it removes the page when it is selected and adds it
    when it is not, for every integer page, and leaves the selection strictly
    ascending.  Pages stay within [1..n] because the click handler, its only
    caller, passes the number of a rendered icon, and the icons are numbered
    [1..n]; toggling such a page keeps the selection within [1..n]. *)
Theorem togglePageSelection_membership
    (n page : Z) (s s0 : Session) (data : FileData) :
  1 <= n -> pages (file_info data) = n ->
  Sorted Z.lt (selectedPages s) ->
  let sel' := selectedPages (togglePageSelection page s) in
  Sorted Z.lt sel'
  /\ (forall q, In q sel' <->
                (q <> page /\ In q (selectedPages s))
                \/ (q = page /\ ~ In page (selectedPages s)))
  /\ (forall p, In p (pageIcons (generatePagePreviews data s0)) -> 1 <= p <= n)
  /\ (1 <= page <= n ->
      Forall (fun p => 1 <= p <= n) (selectedPages s) ->
      Forall (fun p => 1 <= p <= n) sel').
Proof.
  intros Hn Hp Hs sel'. pose proof (Sorted_lt_NoDup _ Hs) as Hnd.
  assert (Hin : forall q, In q sel' <->
                (q <> page /\ In q (selectedPages s))
                \/ (q = page /\ ~ In page (selectedPages s))).
  { intros q. subst sel'.
    now rewrite selectedPages_togglePageSelection, sort_In, toggled_In. }
  split; [ | split; [exact Hin | split]].
  - subst sel'. rewrite selectedPages_togglePageSelection.
    now apply sort_NoDup_lt, toggled_NoDup.
  - intros p. subst n. now apply pageIcons_generatePagePreviews.
  - intros Hpage Hall. rewrite Forall_forall in *. intros p Hp'.
    apply Hin in Hp' as [[_ H] | [-> _]]; [now apply Hall | exact Hpage].
Qed.

Lemma togglePageSelection_membership_witness :
  Sorted Z.lt (selectedPages (togglePageSelection 5 uploaded3))
  /\ In 5 (selectedPages (togglePageSelection 5 uploaded3)).
Proof.
  destruct (togglePageSelection_membership 3 5 uploaded3 uploaded3 pdf3)
    as (Hs & Hin & _); [lia | reflexivity | constructor | ].
  split; [exact Hs | ].
  apply Hin. right. split; [reflexivity | intros []].
Defined.

(** ** Duration estimate *)

(** [Math.round], [Math.floor] and [%] on the half-integers the estimate
    produces come to the ceiling of the total and its split into minutes and
    seconds. *)
Lemma timeEstimateText_ceil selection :
  timeEstimateText selection = Spec.estimateDuration (9 # 2) selection.
Proof.
  unfold timeEstimateText, Spec.estimateDuration.
  destruct (lengthOf selection =? 0) eqn:E; [reflexivity | ].
  apply Z.eqb_neq in E.
  assert (Hk : 0 < lengthOf selection) by (unfold lengthOf in *; lia).
  generalize dependent (lengthOf selection). intros k _ Hk.
  unfold Math_round, Math_floor, remainder, avgSecondsPerPage, Qceiling, Qfloor,
    Qle_bool, Qdiv, Qminus, Qplus, Qmult, Qinv, Qopp, inject_Z.
  cbn -[Z.mul Z.div Z.add Z.opp Z.leb Z.ltb Z.modulo toString].
  replace (0 * 120 <=? k * 9 * 1 * 1) with true by (symmetry; apply Z.leb_le; lia).
  destruct (60 * 2 <=? k * 9 * 1) eqn:E1;
    destruct (- (- (k * 9) / 2) <? 60) eqn:E2; cbn [negb];
    try apply Z.leb_le in E1; try apply Z.leb_gt in E1;
    try apply Z.ltb_lt in E2; try apply Z.ltb_ge in E2.
  - exfalso. revert E2. Z.div_mod_to_equations. lia.
  - replace (k * 9 * 1 / 120) with (- (- (k * 9) / 2) / 60)
      by (Z.div_mod_to_equations; lia).
    replace (((k * 9 * 1 + - (60 * (- (- (k * 9) / 2) / 60)) * 2) * 2 + 1 * 2) / 4)
      with (- (- (k * 9) / 2) mod 60)
      by (Z.div_mod_to_equations; lia).
    reflexivity.
  - replace ((k * 9 * 2 + 1 * 2) / 4) with (- (- (k * 9) / 2))
      by (Z.div_mod_to_equations; lia).
    reflexivity.
  - exfalso. revert E2. Z.div_mod_to_equations. lia.
Qed.

(** C6.  [updateTimeEstimate] writes [ceil(|selection| * 4.5)] seconds, as
    "Ns" under a minute and "Mm Ss" from a minute on, and the placeholder
    for "unknown" when nothing is selected: so for no page, and "45s" for any
    ten pages. *)
Theorem updateTimeEstimate_estimateDuration
    (selection : list Z) (s : Session) (p1 p2 p3 p4 p5 p6 p7 p8 p9 p10 : Z) :
  timeEstimateText selection = Spec.estimateDuration (9 # 2) selection
  /\ timeEstimate (updateTimeEstimate selection s)
     = match timeEstimate s with
       | Some _ => Some (Spec.estimateDuration (9 # 2) selection)
       | None => None
       end
  /\ timeEstimateText [] = Spec.unknown
  /\ timeEstimateText [p1; p2; p3; p4; p5; p6; p7; p8; p9; p10] = "45s"%string.
Proof.
  split; [apply timeEstimateText_ceil | split; [ | split; reflexivity]].
  unfold updateTimeEstimate.
  destruct (timeEstimate s) eqn:E; [ | exact E].
  simpl. now rewrite timeEstimateText_ceil.
Qed.

(** ** Upload *)

Lemma includes_string_In t arr : includes_string t arr = true <-> In t arr.
Proof.
  unfold includes_string. rewrite existsb_exists. split.
  - intros (u & Hu & E). apply String.eqb_eq in E. now subst.
  - intros H. exists t. split; [exact H | apply String.eqb_refl].
Qed.

(** C9.  A file whose declared type is not one of [allowedTypes] gets the
    unsupported-type error at once, and nothing is sent. *)
Theorem handleFileUpload_rejects (file : File) (s : Session) :
  ~ In (type file) allowedTypes ->
  snd (handleFileUpload file s)
  = [showNotification
       [Lit "Unsupported file type. Please upload supported document or image formats."]
       "error"]
  /\ existsb isNetwork (snd (handleFileUpload file s)) = false
  /\ existsb isErrorNotification (snd (handleFileUpload file s)) = true.
Proof.
  intros Hnot. unfold handleFileUpload.
  destruct (includes_string (type file) allowedTypes) eqn:E.
  - apply includes_string_In in E. contradiction.
  - repeat split.
Qed.

Lemma handleFileUpload_rejects_witness :
  ~ In (type notes_docx) allowedTypes
  /\ existsb isNetwork (snd (handleFileUpload notes_docx (initial "French"))) = false.
Proof.
  assert (H : ~ In (type notes_docx) allowedTypes).
  { intros H. apply includes_string_In in H. vm_compute in H. discriminate H. }
  split; [exact H | ].
  apply (handleFileUpload_rejects notes_docx (initial "French") H).
Defined.

(** An accepted file goes to the upload endpoint. *)
Lemma handleFileUpload_accepts file s :
  In (type file) allowedTypes ->
  snd (handleFileUpload file s) = showFileUploadLoading :: uploadFileToServer file.
Proof.
  intros Hin. unfold handleFileUpload.
  apply includes_string_In in Hin. now rewrite Hin.
Qed.

(** C10.  [handleFileUpload] stores the file as [originalUploadedFile] before
    it looks at the type: accepted or rejected, the session it leaves is the
    one it got with the retained file replaced. *)
Theorem handleFileUpload_retains (file : File) (s : Session) :
  fst (handleFileUpload file s) = set_originalUploadedFile (Some file) s
  /\ originalUploadedFile (fst (handleFileUpload file s)) = Some file
  /\ originalUploadedFile (fst (handleFileUpload notes_docx fallback3))
     = Some notes_docx
  /\ existsb isErrorNotification (snd (handleFileUpload notes_docx fallback3))
     = true.
Proof.
  unfold handleFileUpload.
  destruct (includes_string (type file) allowedTypes); repeat split.
Qed.

(** ** Translation: submission *)

Lemma lengthOf_zero {A} (arr : list A) : (lengthOf arr =? 0) = true <-> arr = [].
Proof.
  unfold lengthOf. rewrite Z.eqb_eq.
  destruct arr; simpl; split; intros H; try reflexivity; try discriminate; lia.
Qed.

Lemma lengthOf_nonzero {A} (arr : list A) : arr <> [] -> (lengthOf arr =? 0) = false.
Proof.
  intros H. destruct (lengthOf arr =? 0) eqn:E; [ | reflexivity].
  now apply lengthOf_zero in E.
Qed.

(** C8.  With nothing selected, [translateFileContent] answers with an error
    notification, returns, changes nothing and sends nothing. *)
Theorem translateFileContent_empty_selection (s : Session) :
  selectedPages s = [] ->
  (exists message,
     translateFileContent s = (s, [showNotification message "error"], Return))
  /\ existsb isNetwork (snd (fst (translateFileContent s))) = false.
Proof.
  intros Hsel. unfold translateFileContent.
  destruct (currentFileData s).
  - replace (lengthOf (selectedPages s) =? 0) with true
      by (symmetry; now apply lengthOf_zero).
    split; [eexists; reflexivity | reflexivity].
  - split; [eexists; reflexivity | reflexivity].
Qed.

Lemma translateFileContent_empty_selection_witness :
  selectedPages uploaded3 = []
  /\ translateFileContent uploaded3
     = (uploaded3,
        [showNotification [Lit "Please select at least one page to translate"]
           "error"], Return)
  /\ existsb isNetwork (snd (fst (translateFileContent uploaded3))) = false.
Proof.
  split; [reflexivity | split; [reflexivity | ]].
  apply (translateFileContent_empty_selection uploaded3). reflexivity.
Defined.

(** When the guards pass, one request is sent, with the form [translateForm]
    builds for the available file. *)
Lemma translateFileContent_submits s data file info :
  currentFileData s = Some data ->
  selectedPages s <> [] ->
  availableFile s = Some file ->
  currentFileInfo s = Some info ->
  translateFileContent s
  = (set_originalUploadedFile (Some file) (set_loading true s),
     [startingTranslation;
      xhrSend "POST" "http://127.0.0.1:8000/api/translate-pdf/"
        (translateForm file (fileTargetLanguage s) (selectedPages s) info)
        300000],
     Return).
Proof.
  intros Hd Hsel Hf Hi. unfold translateFileContent, availableFile in *.
  rewrite Hd, (lengthOf_nonzero _ Hsel). simpl.
  destruct (originalUploadedFile s) as [f | ] eqn:Ho.
  - injection Hf as ->. simpl. rewrite Ho, Hi.
    destruct s; simpl in *; now subst.
  - destruct (fileInput s) as [[| f rest] | ]; try discriminate.
    injection Hf as ->. simpl. now rewrite Hi.
Qed.

(** A request is only ever sent that way. *)
Lemma translateFileContent_request_inv s s' effects c method url formData timeout :
  translateFileContent s = (s', effects, c) ->
  In (xhrSend method url formData timeout) effects ->
  exists data file info,
    currentFileData s = Some data /\ selectedPages s <> []
    /\ availableFile s = Some file /\ currentFileInfo s = Some info.
Proof.
  intros Hrun Hin.
  destruct (currentFileData s) as [data | ] eqn:Hd.
  2:{ unfold translateFileContent in Hrun. rewrite Hd in Hrun.
      injection Hrun as <- <- <-. destruct Hin as [H | []]. discriminate H. }
  destruct (lengthOf (selectedPages s) =? 0) eqn:Hl.
  { unfold translateFileContent in Hrun. rewrite Hd, Hl in Hrun.
    injection Hrun as <- <- <-. destruct Hin as [H | []]. discriminate H. }
  assert (Hsel : selectedPages s <> [])
    by (intros E; apply lengthOf_zero in E; congruence).
  destruct (availableFile s) as [file | ] eqn:Hf.
  2:{ unfold translateFileContent, availableFile in *. rewrite Hd, Hl in Hrun.
      simpl in Hrun.
      destruct (originalUploadedFile s) eqn:Ho; [discriminate | ].
      destruct (fileInput s) as [[| f rest] | ]; try discriminate;
        simpl in Hrun; rewrite Ho in Hrun;
        injection Hrun as <- <- <-; destruct Hin as [H | []]; discriminate H. }
  destruct (currentFileInfo s) as [info | ] eqn:Hi.
  - now exists data, file, info.
  - unfold translateFileContent, availableFile in *. rewrite Hd, Hl in Hrun.
    simpl in Hrun.
    destruct (originalUploadedFile s) eqn:Ho.
    + simpl in Hrun. rewrite Ho, Hi in Hrun.
      injection Hrun as <- <- <-. destruct Hin.
    + destruct (fileInput s) as [[| f rest] | ]; try discriminate.
      simpl in Hrun. rewrite Hi in Hrun.
      injection Hrun as <- <- <-. destruct Hin.
Qed.




(** ** Translation: the form *)

Lemma pageNumbers_In n p : In p (pageNumbers n) <-> 1 <= p <= n.
Proof.
  unfold pageNumbers. rewrite in_map_iff. split.
  - intros (k & <- & Hk). apply in_seq in Hk. lia.
  - intros Hp. exists (Z.to_nat p). split; [lia | apply in_seq; lia].
Qed.

Lemma pageNumbers_NoDup n : NoDup (pageNumbers n).
Proof.
  unfold pageNumbers. apply Finite.Injective_map_NoDup; [ | apply seq_NoDup].
  intros a b. apply Nat2Z.inj.
Qed.

Lemma pageNumbers_length n : 0 <= n -> lengthOf (pageNumbers n) = n.
Proof.
  intros Hn. unfold lengthOf, pageNumbers. rewrite length_map, length_seq. lia.
Qed.

(** A repetition-free selection within [1..n] has [n] elements exactly when
    it holds every page. *)
Lemma full_selection n sel :
  0 <= n -> NoDup sel -> Forall (fun p => 1 <= p <= n) sel ->
  lengthOf sel = n <-> (forall p, 1 <= p <= n -> In p sel).
Proof.
  intros Hn Hnd Hall.
  assert (Hincl : incl sel (pageNumbers n)).
  { intros p Hp. apply pageNumbers_In.
    rewrite Forall_forall in Hall. now apply Hall. }
  pose proof (pageNumbers_length n Hn) as Hlen. unfold lengthOf in *.
  split.
  - intros Hl p Hp. apply pageNumbers_In in Hp. revert p Hp.
    apply NoDup_length_incl; [exact Hnd | lia | exact Hincl].
  - intros Hfull.
    assert (incl (pageNumbers n) sel)
      by (intros p Hp; now apply Hfull, pageNumbers_In).
    pose proof (NoDup_incl_length Hnd Hincl).
    pose proof (NoDup_incl_length (pageNumbers_NoDup n) H). lia.
Qed.

Lemma formField_translateForm file targetLanguage sel info :
  formField "file" (translateForm file targetLanguage sel info) = Some (FileField file)
  /\ formField "target_language" (translateForm file targetLanguage sel info)
     = Some (TextField targetLanguage)
  /\ formField "service_name" (translateForm file targetLanguage sel info)
     = Some (TextField "gemini")
  /\ formField "pages" (translateForm file targetLanguage sel info)
     = if (lengthOf sel >? 0) && negb (lengthOf sel =? pages info)
       then Some (TextField (join "," sel)) else None.
Proof.
  unfold translateForm.
  destruct ((lengthOf sel >? 0) && negb (lengthOf sel =? pages info));
    repeat split.
Qed.

(** C4.  Whenever [translateFileContent] sends its request, for a file of
    [n >= 1] pages and a selection without repetition within [1..n]: the form
    carries the file (the retained one, or the file input's when none was
    retained), the target language read from the page and the provider
    [gemini]; the selection is not empty; and the form has a [pages] field,
    the selected numbers joined by commas, exactly when some page of the file
    is not selected. *)
Theorem translateFileContent_request
    (s s' : Session) (effects : list effect) (c : completion)
    (method url : string) (formData : FormData) (timeout n : Z) (info : FileInfo) :
  translateFileContent s = (s', effects, c) ->
  In (xhrSend method url formData timeout) effects ->
  currentFileInfo s = Some info -> pages info = n -> 1 <= n ->
  NoDup (selectedPages s) ->
  Forall (fun p => 1 <= p <= n) (selectedPages s) ->
  (exists file,
     availableFile s = Some file /\ originalUploadedFile s' = Some file
     /\ formField "file" formData = Some (FileField file))
  /\ formField "target_language" formData = Some (TextField (fileTargetLanguage s))
  /\ formField "service_name" formData = Some (TextField "gemini")
  /\ selectedPages s <> []
  /\ (formField "pages" formData = Some (TextField (join "," (selectedPages s)))
      <-> exists p, 1 <= p <= n /\ ~ In p (selectedPages s))
  /\ (formField "pages" formData = None
      <-> forall p, 1 <= p <= n -> In p (selectedPages s)).
Proof.
  intros Hrun Hin Hi Hp Hn Hnd Hall.
  destruct (translateFileContent_request_inv _ _ _ _ _ _ _ _ Hrun Hin)
    as (data & file & info' & Hd & Hsel & Hf & Hi').
  assert (info' = info) as -> by congruence.
  rewrite (translateFileContent_submits s data file info Hd Hsel Hf Hi) in Hrun.
  injection Hrun as <- <- <-.
  destruct Hin as [H | [H | []]]; [discriminate H | ].
  injection H as <- <- <- <-.
  destruct (formField_translateForm file (fileTargetLanguage s) (selectedPages s) info)
    as (Ff & Ft & Fs & Fp).
  pose proof (full_selection n (selectedPages s) ltac:(lia) Hnd Hall) as Hfull.
  assert (Hpos : (lengthOf (selectedPages s) >? 0) = true).
  { apply Z.gtb_lt. unfold lengthOf. destruct (selectedPages s); [congruence | simpl; lia]. }
  rewrite Hpos, Hp in Fp. simpl in Fp.
  split; [exists file; now repeat split | ].
  split; [exact Ft | split; [exact Fs | split; [exact Hsel | ]]].
  rewrite Fp. destruct (lengthOf (selectedPages s) =? n) eqn:E; simpl.
  - apply Z.eqb_eq in E. pose proof (proj1 Hfull E) as Hevery.
    split; split; try discriminate; auto.
    intros (p & Hp1 & Hp2). exfalso. now apply Hp2, Hevery.
  - apply Z.eqb_neq in E. split; split; try discriminate; auto.
    + intros _.
      destruct (Exists_dec (fun p => ~ In p (selectedPages s)) (pageNumbers n))
        as [Hex | Hnex].
      * intros p. destruct (in_dec Z.eq_dec p (selectedPages s)); [right | left]; tauto.
      * apply Exists_exists in Hex as (p & Hp1 & Hp2).
        exists p. split; [now apply pageNumbers_In | exact Hp2].
      * exfalso. apply E, Hfull. intros p Hp1.
        destruct (in_dec Z.eq_dec p (selectedPages s)) as [Hy | Hno]; [exact Hy | ].
        exfalso. apply Hnex, Exists_exists. exists p.
        split; [now apply pageNumbers_In | exact Hno].
    + intros Hfull'. exfalso. now apply E, Hfull.
Qed.

Lemma translateFileContent_request_witness :
  formField "pages"
    [("file"%string, FileField report_pdf);
     ("target_language"%string, TextField "French");
     ("service_name"%string, TextField "gemini");
     ("pages"%string, TextField "1,3")]
  = Some (TextField (join "," (selectedPages (parsePageInput (lit "1,3") uploaded3))))
  <-> exists p, 1 <= p <= 3
                /\ ~ In p (selectedPages (parsePageInput (lit "1,3") uploaded3)).
Proof.
  destruct (translateFileContent_request
              (parsePageInput (lit "1,3") uploaded3)
              (fst (fst (translateFileContent (parsePageInput (lit "1,3") uploaded3))))
              (snd (fst (translateFileContent (parsePageInput (lit "1,3") uploaded3))))
              (snd (translateFileContent (parsePageInput (lit "1,3") uploaded3)))
              "POST" "http://127.0.0.1:8000/api/translate-pdf/"
              [("file"%string, FileField report_pdf);
               ("target_language"%string, TextField "French"%string);
               ("service_name"%string, TextField "gemini"%string);
               ("pages"%string, TextField "1,3"%string)]
              300000 3 (file_info pdf3))
    as (_ & _ & _ & _ & H & _).
  - now destruct (translateFileContent (parsePageInput (lit "1,3") uploaded3))
      as [[s' effects] c].
  - vm_compute. right. left. reflexivity.
  - vm_compute. reflexivity.
  - reflexivity.
  - lia.
  - replace (selectedPages (parsePageInput (lit "1,3") uploaded3)) with [1; 3]
      by (vm_compute; reflexivity).
    repeat constructor; simpl; intuition discriminate.
  - replace (selectedPages (parsePageInput (lit "1,3") uploaded3)) with [1; 3]
      by (vm_compute; reflexivity).
    repeat constructor; lia.
  - exact H.
Defined.

(** ** Translation: the response *)

(** Only a parsed object has a [success] property. *)
Lemma truthy_get data k : truthy (get data k) = true -> truthy data = true.
Proof. destruct data; simpl; try discriminate; reflexivity. Qed.

(** A status other than 200, a body that is not JSON, or a success flag that
    is not truthy: an error notification, and the download locator is left
    alone. *)
Lemma translateOnload_failure targetLanguage translationTime xhr s :
  status xhr <> 200 \/ parsed xhr = None
  \/ (exists data, parsed xhr = Some data /\ truthy (get data "success") = false) ->
  existsb isErrorNotification
    (snd (translateOnload targetLanguage translationTime xhr s)) = true
  /\ translatedPdfDownloadUrl
       (fst (translateOnload targetLanguage translationTime xhr s))
     = translatedPdfDownloadUrl s.
Proof.
  intros H. unfold translateOnload.
  destruct (status xhr =? 200) eqn:E; [ | split; reflexivity].
  apply Z.eqb_eq in E.
  destruct H as [H | [H | (data & H & Hs)]]; [contradiction | | ]; rewrite H.
  - split; reflexivity.
  - rewrite Hs, andb_false_r. destruct (truthy data); split; reflexivity.
Qed.

(** C1, as the claim has it, fails: the response [{success: true}] with
    status 200 brings up the success panel and a success notification, and no
    error. *)
Lemma translateOnload_missing_url_counterexample :
  snd (translateOnload "French" "12.34" success_without_url submitted3)
  = [showFileTranslationSuccess "French" "Google Gemini 2.5 Flash" "12.34";
     showNotification
       [Lit "Successfully translated "; Interp (Num (inject_Z 2));
        Lit " pages using Google Gemini 2.5 Flash in "; Lit "12.34"; Lit "s!"]
       "success"]
  /\ existsb isErrorNotification
       (snd (translateOnload "French" "12.34" success_without_url submitted3))
     = false
  /\ ~ (forall targetLanguage translationTime xhr data s,
          parsed xhr = Some data ->
          truthy (get data "success") = true ->
          get data "download_url" = Undefined ->
          existsb isErrorNotification
            (snd (translateOnload targetLanguage translationTime xhr s)) = true).
Proof.
  split; [reflexivity | split; [reflexivity | ]].
  intros H.
  specialize (H "French"%string "12.34"%string success_without_url _ submitted3
                eq_refl eq_refl eq_refl).
  discriminate H.
Qed.

(** C1, amended.  A translate response with status 200 whose body has a
    truthy success flag and no [download_url] is surfaced as success: the
    success panel and a success notification, no error, and the download
    locator recorded as undefined.  The missing locator shows when the
    download is asked for: that is refused with "No translated file available
    for download", and nothing is fetched. *)
Theorem translateOnload_success_without_url
    (targetLanguage translationTime : string) (xhr : Response) (data : value)
    (s : Session) :
  status xhr = 200 ->
  parsed xhr = Some data ->
  truthy (get data "success") = true ->
  get data "download_url" = Undefined ->
  let s' := fst (translateOnload targetLanguage translationTime xhr s) in
  let effects := snd (translateOnload targetLanguage translationTime xhr s) in
  In (showFileTranslationSuccess targetLanguage "Google Gemini 2.5 Flash"
        translationTime) effects
  /\ (exists message, In (showNotification message "success") effects)
  /\ existsb isErrorNotification effects = false
  /\ translatedPdfDownloadUrl s' = Undefined
  /\ downloadTranslatedFile s'
     = (s', [showNotification [Lit "No translated file available for download"]
               "error"], Return).
Proof.
  intros Hst Hp Hs Hu s' effects. subst s' effects.
  unfold translateOnload.
  rewrite Hst, Hp, Hs, (truthy_get _ _ Hs), Hu. simpl.
  split; [now left | split; [eexists; right; left; reflexivity | ]].
  repeat split.
Qed.

Lemma translateOnload_success_without_url_witness :
  translatedPdfDownloadUrl
    (fst (translateOnload "French" "12.34" success_without_url submitted3))
  = Undefined
  /\ snd (fst (downloadTranslatedFile
                 (fst (translateOnload "French" "12.34" success_without_url
                         submitted3))))
     = [showNotification [Lit "No translated file available for download"]
          "error"].
Proof.
  destruct (translateOnload_success_without_url "French" "12.34"
              success_without_url
              (Obj [("success"%string, Bool true)]) submitted3
              eq_refl eq_refl eq_refl eq_refl) as (_ & _ & _ & Hu & Hd).
  split; [exact Hu | ]. now rewrite Hd.
Defined.

(** With a locator, the download goes ahead, from the server's origin when the
    locator has no scheme. *)
Example downloadTranslatedFile_relative :
  snd (fst (downloadTranslatedFile
              (set_translatedPdfDownloadUrl (Str "/media/out.pdf") submitted3)))
  = [fetchHead "http://127.0.0.1:8000/media/out.pdf";
     linkClick "http://127.0.0.1:8000/media/out.pdf" "translated_document.pdf";
     showNotification [Lit "Download started!"] "success"].
Proof. reflexivity. Qed.

(** ** Sessions the page can be in *)

Lemma selectAllPages_pushes (icons : list Z) :
  forall arr, fold_left (fun acc pageNumber => acc ++ [pageNumber]) icons arr
              = arr ++ icons.
Proof.
  induction icons as [| p r IH]; intros arr; simpl; [now rewrite app_nil_r | ].
  now rewrite IH, <- app_assoc.
Qed.

Lemma selectedPages_selectAllPages s :
  selectedPages (selectAllPages s) = sort (pageIcons s).
Proof.
  unfold selectAllPages.
  now rewrite selectedPages_updateTimeEstimate, selectAllPages_pushes.
Qed.

Lemma wellFormed_initial targetLanguage : wellFormed (initial targetLanguage).
Proof.
  unfold wellFormed. simpl.
  split; [constructor | split; [constructor | intros H; now contradiction H]].
Qed.

Lemma wellFormed_selection s sel :
  wellFormed s ->
  Sorted Z.lt sel ->
  (currentFileData s <> None -> Forall (fun page => 1 <= page <= maxPages s) sel) ->
  wellFormed (updateTimeEstimate sel (set_selectedPages sel s)).
Proof.
  intros (_ & Hi & Hf) Hs Hr.
  unfold updateTimeEstimate, wellFormed.
  destruct (timeEstimate (set_selectedPages sel s)); simpl;
    (split; [exact Hs | split; [exact Hi | ]]);
    intros Hd; (split; [now apply Hf | now apply Hr]).
Qed.

(** Handlers that leave the selection, the icons and the file data alone
    leave a well-formed session well formed. *)
Lemma wellFormed_same s s' :
  selectedPages s' = selectedPages s -> pageIcons s' = pageIcons s ->
  currentFileData s' = currentFileData s ->
  wellFormed s -> wellFormed s'.
Proof.
  unfold wellFormed, maxPages. intros -> -> ->. tauto.
Qed.

Lemma wellFormed_handle s e : wellFormed s -> wellFormed (handle s e).
Proof.
  intros Hw. pose proof Hw as (Hs & Hi & Hf).
  destruct e as [file | info | data | [k | ] | | | value | | | tl tt xhr | ]; simpl.
  - (* Upload *)
    unfold handleFileUpload.
    destruct (negb (includes_string (type file) allowedTypes)); exact Hw.
  - (* FileInfoStored *) exact Hw.
  - (* ResultsShown *)
    unfold showFileTranslationResults, generatePagePreviews, wellFormed, maxPages.
    session_fields;
      (split; [constructor | split; [apply pageNumbers_NoDup | ]]);
      intros _; (split; [reflexivity | constructor]).
  - (* Click on an icon *)
    destruct (nth_error (pageIcons s) k) as [page | ] eqn:Hk; [ | exact Hw].
    simpl. unfold togglePageSelection.
    apply wellFormed_selection; [exact Hw | | ].
    + apply sort_NoDup_lt, toggled_NoDup. now apply Sorted_lt_NoDup.
    + intros Hd. destruct (Hf Hd) as [Hicons Hall].
      apply nth_error_In in Hk. rewrite Hicons in Hk. apply pageNumbers_In in Hk.
      rewrite Forall_forall in *. intros q Hq.
      apply sort_In, toggled_In in Hq; [ | now apply Sorted_lt_NoDup].
      destruct Hq as [[_ Hq] | [-> _]]; [now apply Hall | exact Hk].
  - (* Click elsewhere *) exact Hw.
  - (* SelectAll *)
    unfold selectAllPages. rewrite selectAllPages_pushes. simpl.
    apply wellFormed_selection; [exact Hw | now apply sort_NoDup_lt | ].
    intros Hd. destruct (Hf Hd) as [Hicons _].
    apply Forall_forall. intros q Hq. apply (proj1 (sort_In _ _)) in Hq.
    rewrite Hicons in Hq. apply pageNumbers_In in Hq. exact Hq.
  - (* DeselectAll *)
    unfold deselectAllPages. apply wellFormed_selection; [exact Hw | constructor | intros _; constructor].
  - (* Input *)
    unfold parsePageInput.
    destruct (trim value) as [| c input].
    + unfold deselectAllPages.
      apply wellFormed_selection; [exact Hw | constructor | intros _; constructor].
    + apply wellFormed_selection; [exact Hw | | ].
      * apply sort_NoDup_lt, NoDup_filter, forEach_addPart_NoDup. constructor.
      * intros _. apply Forall_forall. intros q Hq.
        apply sort_In, filter_In in Hq as [_ Hq]. lia.
  - (* Back *)
    unfold hideFileTranslation, wellFormed. simpl.
    split; [constructor | split; [exact Hi | ]]. intros H. now contradiction H.
  - (* Translate *)
    unfold translateFileContent.
    destruct (currentFileData s) eqn:Hd; [ | exact Hw].
    destruct (lengthOf (selectedPages s) =? 0); [exact Hw | ].
    simpl. destruct (originalUploadedFile s) eqn:Hof; simpl.
    + rewrite Hof. destruct (currentFileInfo s); simpl; unchanged_by wellFormed_same.
    + destruct (fileInput s) as [[| f0 r] | ]; simpl; try rewrite Hof;
        try destruct (currentFileInfo s); simpl; unchanged_by wellFormed_same.
  - (* TranslateDone *)
    unfold translateOnload.
    destruct (status xhr =? 200); [ | simpl; unchanged_by wellFormed_same].
    destruct (parsed xhr) as [data | ]; [ | simpl; unchanged_by wellFormed_same].
    destruct (truthy data && truthy (get data "success"));
      [ | destruct (truthy data)]; simpl; unchanged_by wellFormed_same.
  - (* Download *)
    unfold downloadTranslatedFile.
    destruct (negb (truthy (translatedPdfDownloadUrl s))); [exact Hw | ].
    destruct (translatedPdfDownloadUrl s) as [ | | | | url | | ]; try exact Hw.
    destruct (trim (lit url)); [exact Hw | ]. simpl. unchanged_by wellFormed_same.
Qed.

(** Whatever the user and the server do, the selection stays strictly
    ascending, and within the pages of the file while one is loaded. *)
Lemma wellFormed_run events :
  forall s, wellFormed s -> wellFormed (run events s).
Proof.
  unfold run. induction events as [| e r IH]; intros s Hw; simpl; [exact Hw | ].
  now apply IH, wellFormed_handle.
Qed.

(** In every session the page can reach, a second toggle of a page undoes the
    first. *)
Lemma toggle_involutive_reachable events targetLanguage page :
  let s := run events (initial targetLanguage) in
  selectedPages (togglePageSelection page (togglePageSelection page s))
  = selectedPages s.
Proof.
  intros s. apply toggle_involutive.
  now apply (wellFormed_run events (initial targetLanguage)), wellFormed_initial.
Qed.

(** The sample sessions are ones the page reaches: [uploaded3] by an upload
    that runs to its end, [fallback3] when the user leaves the results screen
    while the upload is still under way and the response arrives afterwards. *)
Example uploaded3_reachable :
  run [Upload report_pdf; FileInfoStored (file_info pdf3); ResultsShown pdf3]
      (initial "French")
  = uploaded3.
Proof. reflexivity. Qed.

Example fallback3_reachable :
  run [Upload report_pdf; Back; FileInfoStored (file_info pdf3);
       ResultsShown pdf3; Input (lit "1")]
      (set_fileInput (Some [report_pdf]) (initial "French"))
  = fallback3.
Proof. reflexivity. Qed.

(** ** Select all, deselect all *)

Lemma numbers_from_Sorted len :
  forall start, Sorted Z.lt (map (fun k => Z.of_nat k) (seq start len)).
Proof.
  induction len as [| len IH]; intros start; simpl; constructor.
  - apply IH.
  - destruct len; simpl; constructor. lia.
Qed.

Lemma pageNumbers_Sorted n : Sorted Z.lt (pageNumbers n).
Proof. apply numbers_from_Sorted. Qed.

(** With a file loaded, [selectAllPages] selects the pages [1..n] in order,
    and [deselectAllPages] after it leaves nothing. *)
Lemma selectAllPages_all s :
  wellFormed s -> currentFileData s <> None ->
  selectedPages (selectAllPages s) = pageNumbers (maxPages s)
  /\ selectedPages (deselectAllPages (selectAllPages s)) = [].
Proof.
  intros (_ & _ & Hf) Hd. destruct (Hf Hd) as [Hicons _].
  rewrite selectedPages_selectAllPages, Hicons. split.
  - apply sort_ascending, pageNumbers_Sorted.
  - unfold deselectAllPages. now rewrite selectedPages_updateTimeEstimate.
Qed.

(** ** Further properties of the page selector *)

(** Without file data the pages are filtered against 1000. *)
Lemma parsePageInput_In_without_file value s page :
  currentFileData s = None ->
  In page (selectedPages (parsePageInput value s)) <->
  1 <= page <= 1000
  /\ exists part a b,
       In part (split comma (trim value))
       /\ Spec.tokenRange part = Some (a, b) /\ a <= page <= b.
Proof.
  intros Hd.
  assert (Hmax : maxPages s = 1000) by (unfold maxPages; now rewrite Hd).
  rewrite selectedPages_parsePageInput, Hmax.
  destruct (trim value) as [| c input] eqn:E.
  - split; [intros [] | ].
    intros (_ & part & a & b & [<- | []] & Hr & _). discriminate Hr.
  - rewrite sort_In, filter_In, forEach_addPart_In. split.
    + intros [[[] | H] Hb]. split; [lia | exact H].
    + intros [Hb H]. split; [now right | ].
      apply andb_true_intro. split; apply Z.leb_le; lia.
Qed.

(** X2.  Without file data [parsePageInput] still takes the text, against a
    bound of 1000 pages: for a text in which every number is below
    4294967295 it returns, and the selection is strictly ascending and holds
    exactly the pages from 1 to 1000 that some token stands for. *)
Theorem parsePageInput_without_file (value : text) (s : Session) :
  currentFileData s = None ->
  Machine.numbersBelow Machine.maxLength value = true ->
  exists fuel0 : nat,
    forall fuel : nat,
      (fuel0 <= fuel)%nat ->
      let s' := parsePageInput value s in
      Machine.parsePageInput fuel value s = Machine.Returned s'
      /\ Sorted Z.lt (selectedPages s')
      /\ (forall page,
            In page (selectedPages s') <->
            1 <= page <= 1000
            /\ exists part a b,
                 In part (split comma (trim value))
                 /\ Spec.tokenRange part = Some (a, b) /\ a <= page <= b).
Proof.
  intros Hd Hb. exists (S (Z.to_nat Machine.maxLength)). intros fuel Hf s'.
  split; [apply parsePageInput_agrees; [lia | exact Hb] | ].
  split; [apply parsePageInput_ascending | ].
  intros page. now apply parsePageInput_In_without_file.
Qed.

Lemma parsePageInput_without_file_witness :
  Machine.numbersBelow Machine.maxLength (lit "999-1002") = true
  /\ exists fuel0 : nat,
       forall fuel, (fuel0 <= fuel)%nat ->
       exists s',
         Machine.parsePageInput fuel (lit "999-1002") (initial "French")
         = Machine.Returned s'
         /\ selectedPages s' = [999; 1000].
Proof.
  split; [reflexivity | ].
  destruct (parsePageInput_without_file (lit "999-1002") (initial "French"))
    as [fuel0 H]; [reflexivity | reflexivity | ].
  exists fuel0. intros fuel Hf.
  destruct (H fuel Hf) as [Hrun _].
  exists (parsePageInput (lit "999-1002") (initial "French")).
  split; [exact Hrun | vm_compute; reflexivity].
Defined.

(** X3.  For every sequence of the events of [event] from the moment the page
    is loaded: the selection is strictly ascending, and while a file is
    loaded the icons are its pages [1..n] and every selected page is one of
    them.  The events are those of a server whose upload responses describe
    the file: [ResultsShown] carries a [file_info] with an integer page count
    and a string extension, the bodies on which [showFileTranslationResults]
    runs to its end.  An [Input] on whose text the script throws or does not
    come to an end assigns nothing, so the sessions the page passes through
    are among those of the sequences considered. *)
Theorem selection_valid_always (events : list event) (targetLanguage : string) :
  let s := run events (initial targetLanguage) in
  Sorted Z.lt (selectedPages s)
  /\ NoDup (selectedPages s)
  /\ (currentFileData s <> None ->
      pageIcons s = pageNumbers (maxPages s)
      /\ Forall (fun page => 1 <= page <= maxPages s) (selectedPages s)).
Proof.
  intros s.
  destruct (wellFormed_run events (initial targetLanguage)
              (wellFormed_initial targetLanguage)) as (Hs & _ & Hf).
  split; [exact Hs | split; [now apply Sorted_lt_NoDup | exact Hf]].
Qed.

Lemma estimateShown_same s s' :
  selectedPages s' = selectedPages s -> timeEstimate s' = timeEstimate s ->
  currentFileData s' = currentFileData s ->
  View.estimateShown s -> View.estimateShown s'.
Proof.
  unfold View.estimateShown. intros -> -> ->. tauto.
Qed.

Lemma estimateShown_selection s sel :
  View.estimateShown s ->
  View.estimateShown (updateTimeEstimate sel (set_selectedPages sel s)).
Proof.
  intros [Hn _]. unfold View.estimateShown, updateTimeEstimate. simpl.
  destruct (timeEstimate s); [ | now contradiction Hn]. simpl.
  split; [discriminate | reflexivity].
Qed.

Lemma estimateShown_handle s e :
  View.estimateShown s -> View.estimateShown (handle s e).
Proof.
  intros Hw. pose proof Hw as (Hn & He).
  destruct e as [file | info | data | [k | ] | | | value | | | tl tt xhr | ]; simpl.
  - unfold handleFileUpload.
    destruct (negb (includes_string (type file) allowedTypes)); simpl;
      unchanged_by estimateShown_same.
  - unchanged_by estimateShown_same.
  - unfold showFileTranslationResults, generatePagePreviews, View.estimateShown,
      updateTimeEstimate. simpl.
    destruct (timeEstimate s); [ | now contradiction Hn]. simpl.
    split; [discriminate | reflexivity].
  - destruct (nth_error (pageIcons s) k); [ | exact Hw].
    simpl. unfold togglePageSelection. now apply estimateShown_selection.
  - exact Hw.
  - unfold selectAllPages. now apply estimateShown_selection.
  - unfold deselectAllPages. now apply estimateShown_selection.
  - unfold parsePageInput. destruct (trim value).
    + unfold deselectAllPages. now apply estimateShown_selection.
    + now apply estimateShown_selection.
  - unfold hideFileTranslation, View.estimateShown. simpl.
    split; [exact Hn | intros H; now contradiction H].
  - unfold translateFileContent.
    destruct (currentFileData s) eqn:Hd; [ | exact Hw].
    destruct (lengthOf (selectedPages s) =? 0); [exact Hw | ].
    simpl. destruct (originalUploadedFile s) eqn:Hof; simpl.
    + rewrite Hof. destruct (currentFileInfo s); simpl;
        unchanged_by estimateShown_same.
    + destruct (fileInput s) as [[| f0 r] | ]; simpl; try rewrite Hof;
        try destruct (currentFileInfo s); simpl; unchanged_by estimateShown_same.
  - unfold translateOnload.
    destruct (status xhr =? 200); [ | simpl; unchanged_by estimateShown_same].
    destruct (parsed xhr) as [data | ]; [ | simpl; unchanged_by estimateShown_same].
    destruct (truthy data && truthy (get data "success"));
      [ | destruct (truthy data)]; simpl; unchanged_by estimateShown_same.
  - unfold downloadTranslatedFile.
    destruct (negb (truthy (translatedPdfDownloadUrl s))); [exact Hw | ].
    destruct (translatedPdfDownloadUrl s) as [ | | | | url | | ]; try exact Hw.
    destruct (trim (lit url)); [exact Hw | ]. simpl.
    unchanged_by estimateShown_same.
Qed.

(** X4.  For every sequence of the events of [event] (upload responses that
    describe the file, as for the invariant above): while a file is loaded,
    the estimate on the page is the estimate for the pages selected at that
    moment.  The condition matters: [hideFileTranslation] empties the
    selection and drops the file data without calling [updateTimeEstimate],
    so after it the page keeps the estimate of the selection that was
    abandoned, with nothing selected. *)
Theorem estimate_follows_selection (events : list event) (targetLanguage : string) :
  let s := run events (initial targetLanguage) in
  (currentFileData s <> None ->
   timeEstimate s = Some (timeEstimateText (selectedPages s)))
  /\ selectedPages (hideFileTranslation s) = []
  /\ currentFileData (hideFileTranslation s) = None
  /\ timeEstimate (hideFileTranslation s) = timeEstimate s.
Proof.
  intros s. subst s.
  split; [ | split; [reflexivity | split; reflexivity]].
  assert (H : forall s0, View.estimateShown s0 ->
                         View.estimateShown (run events s0)).
  { unfold run. induction events as [| e r IH]; intros s0 H0; simpl; [exact H0 | ].
    now apply IH, estimateShown_handle. }
  apply H. unfold View.estimateShown. simpl.
  split; [discriminate | intros Hd; now contradiction Hd].
Qed.

Lemma estimate_follows_selection_witness :
  let events :=
    [Upload report_pdf; FileInfoStored (file_info pdf3); ResultsShown pdf3;
     Click (Some 0%nat); SelectAll; Click (Some 1%nat)] in
  (selectedPages (run events (initial "French")) = [1; 3]
   /\ timeEstimate (run events (initial "French")) = Some "9s"%string)
  /\ (selectedPages (hideFileTranslation (run events (initial "French"))) = []
      /\ timeEstimate (hideFileTranslation (run events (initial "French")))
         = Some "9s"%string).
Proof.
  intros events.
  destruct (estimate_follows_selection events "French") as (Hshown & Hsel & _ & Hkept).
  assert (Hloaded : currentFileData (run events (initial "French")) <> None)
    by (vm_compute; discriminate).
  split; [split; [vm_compute; reflexivity | ] | split].
  - rewrite (Hshown Hloaded). vm_compute. reflexivity.
  - exact Hsel.
  - rewrite Hkept, (Hshown Hloaded). vm_compute. reflexivity.
Defined.

(** ** Further properties of upload, submission and download *)

Lemma selectAllPages_fields s :
  currentFileData (selectAllPages s) = currentFileData s
  /\ currentFileInfo (selectAllPages s) = currentFileInfo s
  /\ availableFile (selectAllPages s) = availableFile s
  /\ fileTargetLanguage (selectAllPages s) = fileTargetLanguage s.
Proof.
  unfold selectAllPages, updateTimeEstimate, availableFile. simpl.
  destruct (timeEstimate s); repeat split.
Qed.

(** X5.  After "select all" on a loaded file whose page count is the one the
    upload reported, the request [translateFileContent] sends has exactly the
    fields [file], [target_language] and [service_name]: no page list goes
    out when every page is selected. *)
Theorem selectAll_then_translate_omits_pages
    (s : Session) (data : FileData) (file : File) :
  wellFormed s ->
  currentFileData s = Some data ->
  currentFileInfo s = Some (file_info data) ->
  1 <= pages (file_info data) ->
  availableFile s = Some file ->
  snd (fst (translateFileContent (selectAllPages s)))
  = [startingTranslation;
     xhrSend "POST" "http://127.0.0.1:8000/api/translate-pdf/"
       [("file"%string, FileField file);
        ("target_language"%string, TextField (fileTargetLanguage s));
        ("service_name"%string, TextField "gemini")]
       300000].
Proof.
  intros Hw Hd Hi Hn Hf.
  assert (Hd' : currentFileData s <> None) by congruence.
  destruct (selectAllPages_all s Hw Hd') as [Hall _].
  rewrite (maxPages_pageCount s data Hd Hn) in Hall.
  destruct (selectAllPages_fields s) as (E1 & E2 & E3 & E4).
  assert (Hne : selectedPages (selectAllPages s) <> []).
  { rewrite Hall. unfold pageNumbers.
    destruct (Z.to_nat (pages (file_info data))) eqn:E; [lia | discriminate]. }
  rewrite (translateFileContent_submits _ data file (file_info data));
    try congruence.
  simpl snd. rewrite E4, Hall. do 2 f_equal. f_equal.
  unfold translateForm.
  rewrite (pageNumbers_length (pages (file_info data))) by lia.
  now rewrite Z.eqb_refl, andb_false_r.
Qed.

Lemma selectAll_then_translate_omits_pages_witness :
  formField "pages"
    match snd (fst (translateFileContent (selectAllPages uploaded3))) with
    | [_; xhrSend _ _ formData _] => formData
    | _ => [("pages"%string, TextField "?")]
    end
  = None.
Proof.
  rewrite (selectAll_then_translate_omits_pages uploaded3 pdf3 report_pdf).
  - reflexivity.
  - rewrite <- uploaded3_reachable. apply wellFormed_run, wellFormed_initial.
  - reflexivity.
  - reflexivity.
  - simpl. lia.
  - reflexivity.
Defined.

(** X6.  Whatever the response, [xhr.onload] of the translation takes the
    button out of its loading state, leaves the selection and the file
    alone, and shows exactly one notification: a success, after the success
    panel, when the status is 200 and the body parses to data with a truthy
    success flag, and then the download locator becomes [data.download_url];
    an error in every other case, and then the locator stays as it was. *)
Theorem translateOnload_one_outcome
    (targetLanguage translationTime : string) (xhr : Response) (s : Session) :
  let s' := fst (translateOnload targetLanguage translationTime xhr s) in
  let effects := snd (translateOnload targetLanguage translationTime xhr s) in
  translateBtn_loading s' = false
  /\ selectedPages s' = selectedPages s
  /\ currentFileData s' = currentFileData s
  /\ originalUploadedFile s' = originalUploadedFile s
  /\ if View.accepted xhr then
       (exists message,
          effects = [showFileTranslationSuccess targetLanguage
                       "Google Gemini 2.5 Flash" translationTime;
                     showNotification message "success"])
       /\ (exists data, parsed xhr = Some data
                        /\ translatedPdfDownloadUrl s' = get data "download_url")
     else
       (exists message, effects = [showNotification message "error"])
       /\ translatedPdfDownloadUrl s' = translatedPdfDownloadUrl s.
Proof.
  unfold View.accepted, translateOnload.
  destruct (status xhr =? 200); simpl.
  - destruct (parsed xhr) as [data | ]; simpl.
    + destruct (truthy data) eqn:Hd; simpl.
      * destruct (truthy (get data "success")); simpl;
          repeat split; eauto.
      * repeat split; eauto.
    + repeat split; eauto.
  - repeat split; eauto.
Qed.

Lemma trimStart_nil s : trimStart s = [] -> Forall (fun c => isWhiteSpace c = true) s.
Proof.
  induction s as [| c r IH]; simpl; [constructor | ].
  destruct (isWhiteSpace c) eqn:E; [ | discriminate].
  intros H. constructor; [exact E | now apply IH].
Qed.

(** Text that begins with something other than white space does not trim to
    nothing. *)
Lemma trim_not_empty c r : isWhiteSpace c = false -> trim (c :: r) <> [].
Proof.
  intros Hc. unfold trim, trimEnd. simpl trimStart at 2. rewrite Hc.
  intros H. apply (f_equal (@rev N)) in H. rewrite rev_involutive in H.
  simpl rev at 2 in H. apply trimStart_nil in H.
  rewrite Forall_forall in H.
  assert (isWhiteSpace c = true) by (apply H; simpl; apply in_app_iff; right; now left).
  congruence.
Qed.

Lemma absolute_not_blank url : View.absolute url = true -> trim (lit url) <> [].
Proof.
  unfold View.absolute. intros H.
  destruct url as [| a url]; [discriminate H | ].
  assert (Ha : a = "h"%char).
  { apply orb_true_iff in H as [H | H]; cbn [String.prefix] in H;
      destruct (Ascii.ascii_dec "h" a) as [E | Hn];
      [now symmetry | discriminate H | now symmetry | discriminate H]. }
  subst a. cbn [lit list_ascii_of_string map]. now apply trim_not_empty.
Qed.

(** A locator with a scheme is used as it is. *)
Lemma downloadTranslatedFile_absolute_locator url s :
  View.absolute url = true ->
  translatedPdfDownloadUrl s = Str url ->
  downloadTranslatedFile s
  = (set_translatedPdfDownloadUrl (Str url) s,
     [fetchHead url; linkClick url "translated_document.pdf";
      showNotification [Lit "Download started!"] "success"],
     Return).
Proof.
  intros Habs Hu. unfold downloadTranslatedFile. rewrite Hu.
  assert (Htruthy : truthy (Str url) = true)
    by (destruct url; [discriminate Habs | reflexivity]).
  rewrite Htruthy. cbn [negb].
  pose proof (absolute_not_blank url Habs) as Hnb.
  destruct (trim (lit url)) as [| c r]; [now contradiction Hnb | ].
  unfold View.absolute in Habs. apply orb_true_iff in Habs.
  replace (negb (String.prefix "http://" url) && negb (String.prefix "https://" url))
    with false
    by (destruct Habs as [-> | ->]; cbn [negb andb]; now rewrite ?andb_false_r).
  reflexivity.
Qed.

(** The three ways a download request ends. *)
Lemma downloadTranslatedFile_cases s :
  (exists message,
     downloadTranslatedFile s = (s, [showNotification message "error"], Return))
  \/ downloadTranslatedFile s = (s, [], Throw "TypeError")
  \/ exists url,
       View.absolute url = true
       /\ downloadTranslatedFile s
          = (set_translatedPdfDownloadUrl (Str url) s,
             [fetchHead url; linkClick url "translated_document.pdf";
              showNotification [Lit "Download started!"] "success"],
             Return).
Proof.
  unfold downloadTranslatedFile.
  destruct (negb (truthy (translatedPdfDownloadUrl s))) eqn:Ht; [left; eauto | ].
  destruct (translatedPdfDownloadUrl s) as [ | | | | url | | ] eqn:Hu;
    try (right; left; reflexivity).
  destruct (trim (lit url)) as [| c r] eqn:Hb; [left; eauto | ].
  right. right. eexists. split; [ | reflexivity].
  unfold View.absolute.
  destruct (String.prefix "http://" url) eqn:E1; simpl; [now rewrite E1 | ].
  destruct (String.prefix "https://" url) eqn:E2; simpl; [ | reflexivity].
  now rewrite E1, E2.
Qed.

(** X7.  [downloadTranslatedFile] fetches and opens only a locator with a
    scheme: one that has none gets the server's origin in front first.  The
    locator it leaves behind is the one it used, so a second download goes
    to the same address and the origin is not prefixed twice. *)
Theorem downloadTranslatedFile_absolute (s : Session) :
  let s' := fst (fst (downloadTranslatedFile s)) in
  let effects := snd (fst (downloadTranslatedFile s)) in
  (forall url, In (fetchHead url) effects -> View.absolute url = true)
  /\ (forall href download, In (linkClick href download) effects ->
        View.absolute href = true /\ translatedPdfDownloadUrl s' = Str href)
  /\ (existsb isNetwork effects = true ->
      downloadTranslatedFile s' = (s', effects, Return)).
Proof.
  destruct (downloadTranslatedFile_cases s)
    as [(message & ->) | [-> | (url & Habs & ->)]]; cbn [fst snd].
  - repeat split; try (intros; simpl in *; intuition discriminate).
  - repeat split; try (intros; simpl in *; intuition discriminate).
  - split; [ | split].
    + intros u [H | [H | [H | []]]]; try discriminate H. now injection H as <-.
    + intros href download [H | [H | [H | []]]]; try discriminate H.
      injection H as <- <-. now split.
    + intros _.
      rewrite (downloadTranslatedFile_absolute_locator url
                 (set_translatedPdfDownloadUrl (Str url) s) Habs eq_refl).
      now destruct s.
Qed.

Lemma updateTimeEstimate_fields sel s :
  currentFileData (updateTimeEstimate sel s) = currentFileData s
  /\ translatedPdfDownloadUrl (updateTimeEstimate sel s) = translatedPdfDownloadUrl s.
Proof. unfold updateTimeEstimate. destruct (timeEstimate s); split; reflexivity. Qed.

(** Only the results of an upload load file data. *)
Lemma currentFileData_handle s e :
  Events.isResultsShown e = false -> currentFileData s = None ->
  currentFileData (handle s e) = None.
Proof.
  intros He Hd.
  destruct e as [file | info | data | [k | ] | | | value | | | tl tt xhr | ];
    try discriminate He; simpl.
  - unfold handleFileUpload.
    destruct (negb (includes_string (type file) allowedTypes)); exact Hd.
  - exact Hd.
  - destruct (nth_error (pageIcons s) k); [ | exact Hd].
    simpl. unfold togglePageSelection.
    now rewrite (proj1 (updateTimeEstimate_fields _ _)).
  - exact Hd.
  - unfold selectAllPages. now rewrite (proj1 (updateTimeEstimate_fields _ _)).
  - unfold deselectAllPages. now rewrite (proj1 (updateTimeEstimate_fields _ _)).
  - unfold parsePageInput. destruct (trim value);
      [unfold deselectAllPages | ];
      now rewrite (proj1 (updateTimeEstimate_fields _ _)).
  - reflexivity.
  - unfold translateFileContent. now rewrite Hd.
  - unfold translateOnload.
    destruct (status xhr =? 200); [ | exact Hd].
    destruct (parsed xhr) as [data | ]; [ | exact Hd].
    destruct (truthy data && truthy (get data "success"));
      [ | destruct (truthy data)]; exact Hd.
  - unfold downloadTranslatedFile.
    destruct (negb (truthy (translatedPdfDownloadUrl s))); [exact Hd | ].
    destruct (translatedPdfDownloadUrl s) as [ | | | | url | | ]; try exact Hd.
    destruct (trim (lit url)); exact Hd.
Qed.

(** Only a translate response sets the download locator. *)
Lemma translatedPdfDownloadUrl_handle s e :
  Events.isTranslateDone e = false ->
  translatedPdfDownloadUrl s = Str EmptyString ->
  translatedPdfDownloadUrl (handle s e) = Str EmptyString.
Proof.
  intros He Hu.
  destruct e as [file | info | data | [k | ] | | | value | | | tl tt xhr | ];
    try discriminate He; simpl.
  - unfold handleFileUpload.
    destruct (negb (includes_string (type file) allowedTypes)); exact Hu.
  - exact Hu.
  - unfold showFileTranslationResults.
    now rewrite (proj2 (updateTimeEstimate_fields _ _)).
  - destruct (nth_error (pageIcons s) k); [ | exact Hu].
    simpl. unfold togglePageSelection.
    now rewrite (proj2 (updateTimeEstimate_fields _ _)).
  - exact Hu.
  - unfold selectAllPages. now rewrite (proj2 (updateTimeEstimate_fields _ _)).
  - unfold deselectAllPages. now rewrite (proj2 (updateTimeEstimate_fields _ _)).
  - unfold parsePageInput. destruct (trim value);
      [unfold deselectAllPages | ];
      now rewrite (proj2 (updateTimeEstimate_fields _ _)).
  - reflexivity.
  - unfold translateFileContent.
    destruct (currentFileData s); [ | exact Hu].
    destruct (lengthOf (selectedPages s) =? 0); [exact Hu | ].
    simpl. destruct (originalUploadedFile s) eqn:Hof; simpl.
    + rewrite Hof. destruct (currentFileInfo s); exact Hu.
    + destruct (fileInput s) as [[| f0 r] | ]; simpl; try rewrite Hof;
        try destruct (currentFileInfo s); exact Hu.
  - unfold downloadTranslatedFile. now rewrite Hu.
Qed.

(** X8.  [hideFileTranslation] resets the session and cancels nothing.  After
    it, for as long as no results of an upload are shown, whatever else
    happens, the translate button answers "No file data available" and
    sends nothing; for as long as no translate response comes in, whatever
    else happens, the download button answers "No translated file available
    for download" and fetches nothing.  The results timer and the translate
    response of the abandoned job are not among what is excluded: when one of
    them runs after the reset it is taken like any other, the file data is
    loaded again and the locator of an accepted response is recorded, and a
    download after that fetches it. *)
Theorem hideFileTranslation_cancels_nothing (s : Session) (events : list event) :
  (forallb (fun e => negb (Events.isResultsShown e)) events = true ->
   snd (fst (translateFileContent (run events (hideFileTranslation s))))
   = [showNotification [Lit "No file data available"] "error"])
  /\ (forallb (fun e => negb (Events.isTranslateDone e)) events = true ->
      snd (fst (downloadTranslatedFile (run events (hideFileTranslation s))))
      = [showNotification [Lit "No translated file available for download"] "error"])
  /\ selectedPages (hideFileTranslation s) = []
  /\ originalUploadedFile (hideFileTranslation s) = None
  /\ (forall data,
        currentFileData (handle (hideFileTranslation s) (ResultsShown data))
        = Some data)
  /\ (forall targetLanguage translationTime xhr data url,
        status xhr = 200 -> parsed xhr = Some data ->
        truthy (get data "success") = true ->
        get data "download_url" = Str url -> View.absolute url = true ->
        let late := handle (hideFileTranslation s)
                      (TranslateDone targetLanguage translationTime xhr) in
        translatedPdfDownloadUrl late = Str url
        /\ snd (fst (downloadTranslatedFile late))
           = [fetchHead url; linkClick url "translated_document.pdf";
              showNotification [Lit "Download started!"] "success"]).
Proof.
  split; [ | split; [ | split; [reflexivity | split; [reflexivity | split]]]].
  - intros Hev.
    assert (Hd : currentFileData (run events (hideFileTranslation s)) = None).
    { assert (H0 : currentFileData (hideFileTranslation s) = None) by reflexivity.
      revert H0. generalize (hideFileTranslation s). unfold run.
      induction events as [| e r IH]; intros s0 H0; simpl; [exact H0 | ].
      simpl in Hev. apply andb_true_iff in Hev as [He Hr].
      apply IH; [exact Hr | ]. apply currentFileData_handle; [ | exact H0].
      now destruct (Events.isResultsShown e). }
    unfold translateFileContent. now rewrite Hd.
  - intros Hev.
    assert (Hu : translatedPdfDownloadUrl (run events (hideFileTranslation s))
                 = Str EmptyString).
    { assert (H0 : translatedPdfDownloadUrl (hideFileTranslation s) = Str EmptyString)
        by reflexivity.
      revert H0. generalize (hideFileTranslation s). unfold run.
      induction events as [| e r IH]; intros s0 H0; simpl; [exact H0 | ].
      simpl in Hev. apply andb_true_iff in Hev as [He Hr].
      apply IH; [exact Hr | ]. apply translatedPdfDownloadUrl_handle; [ | exact H0].
      now destruct (Events.isTranslateDone e). }
    unfold downloadTranslatedFile. now rewrite Hu.
  - intros data. unfold handle, showFileTranslationResults, generatePagePreviews.
    now rewrite (proj1 (updateTimeEstimate_fields _ _)).
  - intros targetLanguage translationTime xhr data url Hst Hp Hsuccess Hurl Habs late.
    assert (Hlate : translatedPdfDownloadUrl late = Str url).
    { subst late. unfold handle, translateOnload.
      rewrite Hst, Hp, Hsuccess, (truthy_get data "success" Hsuccess), Hurl.
      reflexivity. }
    split; [exact Hlate | ].
    now rewrite (downloadTranslatedFile_absolute_locator url late Habs Hlate).
Qed.

Lemma hideFileTranslation_cancels_nothing_witness :
  snd (fst (translateFileContent
              (run [Upload report_pdf; Input (lit "1"); SelectAll; Download]
                 (hideFileTranslation submitted3))))
  = [showNotification [Lit "No file data available"] "error"]
  /\ currentFileData (run [Back; ResultsShown pdf3] submitted3) = Some pdf3
  /\ snd (fst (downloadTranslatedFile
                 (run [Back; TranslateDone "French" "1.50" success_with_url]
                    submitted3)))
     = [fetchHead "http://127.0.0.1:8000/media/translated.pdf";
        linkClick "http://127.0.0.1:8000/media/translated.pdf" "translated_document.pdf";
        showNotification [Lit "Download started!"] "success"].
Proof.
  destruct (hideFileTranslation_cancels_nothing submitted3
              [Upload report_pdf; Input (lit "1"); SelectAll; Download])
    as (Hquiet & _ & _ & _ & Hresults & Hresponse).
  split; [now apply Hquiet | split; [apply Hresults | ]].
  apply (Hresponse "French"%string "1.50"%string success_with_url
           (Obj [("success"%string, Bool true);
                 ("download_url"%string,
                  Str "http://127.0.0.1:8000/media/translated.pdf")]));
    reflexivity.
Defined.

(** X9.  [handleFileUpload] sends something exactly when the declared type is
    one of [allowedTypes]; what it sends then is one POST to the upload
    endpoint, with the file as the only field and a timeout of 300000 ms,
    after the loading screen is shown. *)
Theorem handleFileUpload_sends_iff_allowed (file : File) (s : Session) :
  existsb isNetwork (snd (handleFileUpload file s))
  = includes_string (type file) allowedTypes
  /\ snd (handleFileUpload file s)
     = if includes_string (type file) allowedTypes
       then [showFileUploadLoading;
             xhrSend "POST" "http://127.0.0.1:8000/api/upload/"
               [("file"%string, FileField file)] 300000]
       else [showNotification
               [Lit "Unsupported file type. Please upload supported document or image formats."]
               "error"].
Proof.
  unfold handleFileUpload.
  destruct (includes_string (type file) allowedTypes); split; reflexivity.
Qed.

(** ** String utilities *)

Import Strings.

Lemma split_without_sep sep s : ~ In sep s -> split sep s = [s].
Proof.
  induction s as [| c r IH]; intros Hs; simpl; [reflexivity | ].
  destruct (c =? sep)%N eqn:E.
  - apply N.eqb_eq in E. exfalso. apply Hs. now left.
  - rewrite IH; [reflexivity | ]. intros H. apply Hs. now right.
Qed.

Lemma split_at_first_sep sep p t :
  ~ In sep p -> split sep (p ++ sep :: t) = p :: split sep t.
Proof.
  induction p as [| c r IH]; intros Hp; simpl.
  - now rewrite N.eqb_refl.
  - destruct (c =? sep)%N eqn:E.
    + apply N.eqb_eq in E. exfalso. apply Hp. now left.
    + rewrite IH; [reflexivity | ]. intros H. apply Hp. now right.
Qed.

Lemma splitOn_not_nil sep s : forall skip, splitOn sep skip s <> [].
Proof.
  induction s as [| c r IH]; intros skip; simpl; [discriminate | ].
  destruct skip; [ | apply IH].
  destruct (startsWith sep (c :: r)); [discriminate | ].
  destruct (splitOn sep 0 r); discriminate.
Qed.

(** A row without a semicolon, followed by anything: the row is the head of
    the first piece. *)
Lemma splitOn_row row t :
  ~ In semicolon row ->
  splitOn (lit "; ") 0 (row ++ t)
  = match splitOn (lit "; ") 0 t with
    | p :: ps => (row ++ p) :: ps
    | [] => [row]
    end.
Proof.
  induction row as [| c r IH]; intros Hr.
  - simpl. destruct (splitOn (lit "; ") 0 t) eqn:E; [ | reflexivity].
    now apply splitOn_not_nil in E.
  - assert (Hc : (59 =? c)%N = false).
    { apply N.eqb_neq. intros E. apply Hr. now left. }
    assert (Hstart : startsWith (lit "; ") (c :: r ++ t) = false)
      by (unfold lit; cbn [list_ascii_of_string map startsWith];
          change (N_of_ascii ";") with 59%N; now rewrite Hc).
    cbn [app splitOn]. rewrite Hstart.
    rewrite IH by (intros H; apply Hr; now right).
    destruct (splitOn (lit "; ") 0 t); reflexivity.
Qed.

(** Splitting what [join] made of rows without semicolons gives the rows. *)
Lemma splitOn_joinText rows :
  rows <> [] -> (forall row, In row rows -> ~ In semicolon row) ->
  splitOn (lit "; ") 0 (joinText (lit "; ") rows) = rows.
Proof.
  induction rows as [| row rest IH]; intros Hne Hall; [congruence | ].
  destruct rest as [| row' rest'].
  - cbn [joinText]. rewrite <- (app_nil_r row) at 1.
    rewrite splitOn_row by (apply Hall; now left).
    cbn. now rewrite app_nil_r.
  - change (joinText (lit "; ") (row :: row' :: rest'))
      with (row ++ lit "; " ++ joinText (lit "; ") (row' :: rest')).
    rewrite splitOn_row by (apply Hall; now left).
    set (tail := joinText (lit "; ") (row' :: rest')) in *.
    assert (Hsep : splitOn (lit "; ") 0 (lit "; " ++ tail)
                   = [] :: splitOn (lit "; ") 0 tail) by reflexivity.
    rewrite Hsep, app_nil_r. f_equal.
    apply IH; [discriminate | ]. intros r Hr. apply Hall. now right.
Qed.

Lemma find_first {A} (f : A -> bool) before x after :
  (forall y, In y before -> f y = false) -> f x = true ->
  find f (before ++ x :: after) = Some x.
Proof.
  induction before as [| y r IH]; intros Hb Hx; simpl.
  - now rewrite Hx.
  - rewrite (Hb y) by now left. apply IH; [ | exact Hx].
    intros z Hz. apply Hb. now right.
Qed.

(** X10.  A token stored by the server is read back by [getCsrfToken]: when
    the cookie string lists cookies separated by "; ", none of them holds a
    semicolon, and the first one whose text begins with [csrftoken=] carries
    a value without "=", that value is the result. *)
Theorem getCsrfToken_reads_token (before after : list text) (v : text) :
  (forall row, In row before -> startsWith (lit "csrftoken=") row = false) ->
  (forall row, In row (before ++ after) -> ~ In semicolon row) ->
  ~ In semicolon v -> ~ In equals v ->
  getCsrfToken
    (joinText (lit "; ") (before ++ (lit "csrftoken=" ++ v) :: after))
  = v.
Proof.
  intros Hb Hrows Hv1 Hv2. unfold getCsrfToken.
  rewrite splitOn_joinText.
  - match goal with
    | |- context [find ?f ?l] =>
        replace (find f l) with (Some (lit "csrftoken=" ++ v))
          by (symmetry; apply find_first; [exact Hb | reflexivity])
    end.
    change (lit "csrftoken=" ++ v) with (lit "csrftoken" ++ equals :: v).
    rewrite split_at_first_sep.
    + now rewrite (split_without_sep equals v Hv2).
    + vm_compute. intuition discriminate.
  - now destruct before.
  - intros row Hin. apply in_app_iff in Hin as [Hin | [<- | Hin]].
    + apply Hrows, in_app_iff. now left.
    + intros H. apply in_app_iff in H as [H | H]; [ | contradiction].
      vm_compute in H. intuition discriminate.
    + apply Hrows, in_app_iff. now right.
Qed.

Lemma getCsrfToken_reads_token_witness :
  getCsrfToken (lit "sessionid=abc; csrftoken=tok123; theme=dark") = lit "tok123".
Proof.
  apply (getCsrfToken_reads_token [lit "sessionid=abc"] [lit "theme=dark"]
           (lit "tok123")).
  - intros row [<- | []]. reflexivity.
  - intros row [<- | [<- | []]]; vm_compute; intuition discriminate.
  - vm_compute. intuition discriminate.
  - vm_compute. intuition discriminate.
Defined.

(** X11.  What [getCsrfToken] returns never holds an "=": a token that
    has one is cut at it.  And when no cookie begins with [csrftoken=] the
    result is the empty string. *)
Theorem getCsrfToken_cut_or_empty (cookie : text) :
  ~ In equals (getCsrfToken cookie)
  /\ ((forall row, In row (splitOn (lit "; ") 0 cookie) ->
         startsWith (lit "csrftoken=") row = false) ->
      getCsrfToken cookie = [])
  /\ getCsrfToken (lit "csrftoken=YWJj=") = lit "YWJj".
Proof.
  unfold getCsrfToken. split; [ | split; [ | reflexivity]].
  - destruct (find _ _) as [row | ]; [ | intros []].
    destruct (nth_error (split equals row) 1) as [v | ] eqn:E; [ | intros []].
    apply nth_error_In in E. now apply (split_pieces equals row).
  - intros Hnone.
    destruct (find _ _) as [row | ] eqn:E; [ | reflexivity].
    apply find_some in E as [Hin Hrow]. rewrite (Hnone row Hin) in Hrow.
    discriminate Hrow.
Qed.

Lemma splitWhiteSpace_not_nil s : forall b, splitWhiteSpace b s <> [].
Proof.
  induction s as [| c r IH]; intros b; simpl; [discriminate | ].
  destruct (isWhiteSpace c); [destruct b; [apply IH | discriminate] | ].
  destruct (splitWhiteSpace false r); discriminate.
Qed.

(** The number of pieces that are not empty. *)
Lemma wordStarts_pieces s :
  Z.of_nat (List.length
              (filter (fun word => 0 <? Z.of_nat (List.length word))
                 (splitWhiteSpace true s)))
  = wordStarts true s
  /\ Z.of_nat (List.length
                 (filter (fun word => 0 <? Z.of_nat (List.length word))
                    (tl (splitWhiteSpace false s))))
     = wordStarts false s.
Proof.
  induction s as [| c r [IHt IHf]]; [split; reflexivity | ].
  cbn [splitWhiteSpace wordStarts]. destruct (isWhiteSpace c).
  - split; [exact IHt | ]. cbn [tl]. exact IHt.
  - destruct (splitWhiteSpace false r) as [| p ps] eqn:E.
    + now apply splitWhiteSpace_not_nil in E.
    + cbn [tl] in *. split; [ | exact IHf].
      cbn [filter List.length].
      replace (0 <? Z.of_nat (S (List.length p))) with true
        by (symmetry; apply Z.ltb_lt; lia).
      cbn [List.length]. lia.
Qed.

Lemma wordStarts_split s :
  Z.of_nat (List.length
              (filter (fun word => 0 <? Z.of_nat (List.length word))
                 (splitWhiteSpace false s)))
  = wordStarts true s.
Proof.
  destruct s as [| c r]; [reflexivity | ].
  cbn [splitWhiteSpace wordStarts]. destruct (isWhiteSpace c).
  - cbn [filter List.length]. change (0 <? Z.of_nat 0) with false.
    cbv iota. apply wordStarts_pieces.
  - destruct (wordStarts_pieces r) as [_ Hf].
    destruct (splitWhiteSpace false r) as [| p ps] eqn:E;
      [now apply splitWhiteSpace_not_nil in E | ].
    cbn [tl filter List.length] in *.
    + replace (0 <? Z.of_nat (S (List.length p))) with true
        by (symmetry; apply Z.ltb_lt; lia).
      cbn [List.length]. lia.
Qed.

Lemma wordStarts_blank ws b :
  Forall (fun c => isWhiteSpace c = true) ws -> wordStarts b ws = 0.
Proof.
  intros H. revert b. induction H as [| c r Hc _ IH]; intros b; simpl;
    [reflexivity | ]. rewrite Hc. apply IH.
Qed.

Lemma wordStarts_app u w v b :
  isWhiteSpace w = true ->
  wordStarts b (u ++ w :: v) = wordStarts b u + wordStarts true v.
Proof.
  intros Hw. revert b. induction u as [| c r IH]; intros b; simpl.
  - now rewrite Hw.
  - destruct (isWhiteSpace c); rewrite IH; lia.
Qed.

Lemma wordStarts_trailing u ws b :
  Forall (fun c => isWhiteSpace c = true) ws ->
  wordStarts b (u ++ ws) = wordStarts b u.
Proof.
  intros Hws. revert b. induction u as [| c r IH]; intros b; simpl.
  - now apply wordStarts_blank.
  - destruct (isWhiteSpace c); now rewrite IH.
Qed.

Lemma trimStart_decompose s :
  exists ws, s = ws ++ trimStart s /\ Forall (fun c => isWhiteSpace c = true) ws.
Proof.
  induction s as [| c r (ws & E & Hws)]; [exists []; split; [reflexivity | constructor] | ].
  simpl. destruct (isWhiteSpace c) eqn:Hc.
  - exists (c :: ws). split; [simpl; now rewrite <- E | now constructor].
  - exists []. split; [reflexivity | constructor].
Qed.

Lemma wordStarts_trim s : wordStarts true (trim s) = wordStarts true s.
Proof.
  unfold trim, trimEnd.
  destruct (trimStart_decompose (rev (trimStart s))) as (ws & E & Hws).
  apply (f_equal (@rev N)) in E. rewrite rev_involutive, rev_app_distr in E.
  transitivity (wordStarts true (trimStart s)).
  - rewrite E at 2. symmetry. apply wordStarts_trailing.
    apply Forall_forall. intros c Hc. apply in_rev in Hc.
    rewrite Forall_forall in Hws. now apply Hws.
  - clear. induction s as [| c r IH]; [reflexivity | ].
    simpl. destruct (isWhiteSpace c) eqn:Hc; [exact IH | ].
    simpl. now rewrite Hc.
Qed.

(** X12.  [countWords] counts the places where a word begins, that is,
    where something other than white space stands at the start or after
    white space.  So blank text has no words, and two texts joined by a
    white-space character have the words of both. *)
Theorem countWords_counts (t u v : text) (w : N) :
  countWords t = wordStarts true t
  /\ (Forall (fun c => isWhiteSpace c = true) t -> countWords t = 0)
  /\ (isWhiteSpace w = true ->
      countWords (u ++ w :: v) = countWords u + countWords v).
Proof.
  assert (H : forall s, countWords s = wordStarts true s).
  { intros s. unfold countWords. now rewrite wordStarts_split, wordStarts_trim. }
  split; [apply H | split].
  - intros Hb. rewrite H. now apply wordStarts_blank.
  - intros Hw. rewrite !H. now apply wordStarts_app.
Qed.

(** ** The component loader's page name *)

Lemma sameText_eq a : forall b, sameText a b = true <-> a = b.
Proof.
  induction a as [| x a' IH]; intros [| y b']; simpl;
    try (split; [discriminate | discriminate]); [tauto | ].
  rewrite andb_true_iff, N.eqb_eq, IH. split.
  - intros [-> ->]. reflexivity.
  - intros E. injection E as -> ->. now split.
Qed.

Lemma split_ends_with sep d n :
  ~ In sep n -> exists p pre, split sep (d ++ sep :: n) = p :: pre ++ [n].
Proof.
  intros Hn. induction d as [| c r (p & pre & IH)]; simpl.
  - rewrite N.eqb_refl, (split_without_sep sep n Hn). now exists [], [].
  - rewrite IH. destruct (c =? sep)%N.
    + now exists [], (p :: pre).
    + now exists (c :: p), pre.
Qed.

Lemma pop_split sep d n : ~ In sep n -> last (split sep (d ++ sep :: n)) [] = n.
Proof.
  intros Hn. destruct (split_ends_with sep d n Hn) as (p & pre & ->).
  change (p :: pre ++ [n]) with ((p :: pre) ++ [n]). apply last_last.
Qed.

Lemma startsWith_html c r : c <> dot -> startsWith (lit ".html") (c :: r) = false.
Proof.
  intros Hc. unfold lit. cbn [list_ascii_of_string map startsWith].
  change (N_of_ascii ".") with dot.
  now replace (dot =? c)%N with false by (symmetry; apply N.eqb_neq; congruence).
Qed.

Lemma replaceFirst_no_dot n : ~ In dot n -> replaceFirst (lit ".html") [] n = n.
Proof.
  induction n as [| c r IH]; intros Hn; [reflexivity | ].
  cbn [replaceFirst]. rewrite startsWith_html by (intros ->; apply Hn; now left).
  f_equal. apply IH. intros H. apply Hn. now right.
Qed.

Lemma replaceFirst_suffix n :
  ~ In dot n -> replaceFirst (lit ".html") [] (n ++ lit ".html") = n.
Proof.
  induction n as [| c r IH]; intros Hn; [reflexivity | ].
  cbn [app replaceFirst]. rewrite startsWith_html by (intros ->; apply Hn; now left).
  f_equal. apply IH. intros H. apply Hn. now right.
Qed.

(** X13.  The page name comes back out of the address: for a name that is
    not empty, is not [index] and holds neither "/" nor ".", the loader
    answers that name for [<dir>/<name>.html] and for [<dir>/<name>],
    whatever the directory. *)
Theorem getCurrentPage_reads_name (dir name : text) :
  name <> [] -> name <> lit "index" -> ~ In slash name -> ~ In dot name ->
  getCurrentPage (dir ++ slash :: name ++ lit ".html") = name
  /\ getCurrentPage (dir ++ slash :: name) = name.
Proof.
  intros Hne Hidx Hs Hd.
  assert (Hfinal : (match name with [] => lit "index" | _ => name end) = name)
    by (destruct name; [congruence | reflexivity]).
  assert (Hsame : sameText name (lit "index") = false).
  { destruct (sameText name (lit "index")) eqn:E; [ | reflexivity].
    apply sameText_eq in E. congruence. }
  unfold getCurrentPage. split.
  - rewrite pop_split.
    + rewrite (replaceFirst_suffix name Hd), Hfinal. now rewrite Hsame.
    + intros H. apply in_app_iff in H as [H | H]; [contradiction | ].
      vm_compute in H. intuition discriminate.
  - rewrite (pop_split slash dir name Hs), (replaceFirst_no_dot name Hd), Hfinal.
    now rewrite Hsame.
Qed.

Lemma getCurrentPage_reads_name_witness :
  getCurrentPage (lit "/site/login.html") = lit "login".
Proof.
  apply (getCurrentPage_reads_name (lit "/site") (lit "login"));
    vm_compute; intuition discriminate.
Defined.

(** X14.  The loader never answers with the empty name or with [index]:
    an address that ends in "/", in [/index.html], in [/index] or in
    [/.html] is the page [home]. *)
Theorem getCurrentPage_home (dir pathname : text) :
  getCurrentPage pathname <> []
  /\ getCurrentPage pathname <> lit "index"
  /\ getCurrentPage (dir ++ [slash]) = lit "home"
  /\ getCurrentPage (dir ++ slash :: lit "index.html") = lit "home"
  /\ getCurrentPage (dir ++ slash :: lit "index") = lit "home"
  /\ getCurrentPage (dir ++ slash :: lit ".html") = lit "home".
Proof.
  split; [ | split; [ | repeat split]].
  - unfold getCurrentPage.
    destruct (replaceFirst (lit ".html") [] (last (split slash pathname) []))
      as [| c r]; [discriminate | ].
    destruct (sameText (c :: r) (lit "index")); discriminate.
  - unfold getCurrentPage.
    destruct (replaceFirst (lit ".html") [] (last (split slash pathname) []))
      as [| c r]; [discriminate | ].
    destruct (sameText (c :: r) (lit "index")) eqn:E; [discriminate | ].
    intros H. rewrite H in E. discriminate E.
  - unfold getCurrentPage. rewrite pop_split by (intros []). reflexivity.
  - unfold getCurrentPage.
    rewrite pop_split by (vm_compute; intuition discriminate). reflexivity.
  - unfold getCurrentPage.
    rewrite pop_split by (vm_compute; intuition discriminate). reflexivity.
  - unfold getCurrentPage.
    rewrite pop_split by (vm_compute; intuition discriminate). reflexivity.
Qed.

(** ** Numbers written out and read back *)

Lemma lit_app a b : lit (a ++ b) = lit a ++ lit b.
Proof.
  unfold lit. induction a as [| c a' IH]; simpl; [reflexivity | now rewrite IH].
Qed.

Lemma digits_of_uint_acc d :
  forall a, digits 10 (Some (Z.pos a)) (lit (NilEmpty.string_of_uint d))
            = Some (Z.pos (Pos.of_uint_acc d a)).
Proof.
  induction d; intros a; cbn [NilEmpty.string_of_uint Pos.of_uint_acc];
    [reflexivity | ..];
    unfold lit; cbn [list_ascii_of_string map digits]; fold (lit (NilEmpty.string_of_uint d));
    match goal with
    | |- context [digit 10 ?c] =>
        let v := eval vm_compute in (digit 10 c) in
        change (digit 10 c) with v
    end; cbv iota beta;
    match goal with
    | |- digits 10 (Some ?x) _ = Some (Z.pos (Pos.of_uint_acc _ ?y)) =>
        replace x with (Z.pos y) by lia
    end; apply IHd.
Qed.

Lemma digits_of_uint d :
  digits 10 (Some 0) (lit (NilEmpty.string_of_uint d)) = Some (Z.of_N (Pos.of_uint d)).
Proof.
  induction d; cbn [NilEmpty.string_of_uint Pos.of_uint];
    [reflexivity | ..];
    unfold lit; cbn [list_ascii_of_string map digits]; fold (lit (NilEmpty.string_of_uint d));
    match goal with
    | |- context [digit 10 ?c] =>
        let v := eval vm_compute in (digit 10 c) in
        change (digit 10 c) with v
    end; cbv iota beta;
    first [ exact IHd | apply (digits_of_uint_acc d) ].
Qed.

Lemma digits_of_uint_start d :
  d <> Decimal.Nil ->
  digits 10 None (lit (NilEmpty.string_of_uint d)) = Some (Z.of_N (Pos.of_uint d)).
Proof.
  destruct d; intros Hd; [congruence | ..];
    cbn [NilEmpty.string_of_uint Pos.of_uint];
    unfold lit; cbn [list_ascii_of_string map digits]; fold (lit (NilEmpty.string_of_uint d));
    match goal with
    | |- context [digit 10 ?c] =>
        let v := eval vm_compute in (digit 10 c) in
        change (digit 10 c) with v
    end; cbv iota beta;
    first [ apply (digits_of_uint d) | apply (digits_of_uint_acc d) ].
Qed.

Lemma string_of_uint_digits d :
  Forall (fun c => isDigit c = true) (lit (NilEmpty.string_of_uint d)).
Proof.
  induction d; cbn [NilEmpty.string_of_uint]; [constructor | ..];
    unfold lit; cbn [list_ascii_of_string map];
    (constructor; [reflexivity | exact IHd]).
Qed.

Lemma isDigit_bounds c : isDigit c = true -> (48 <= c <= 57)%N.
Proof.
  unfold isDigit. intros H. apply andb_true_iff in H as [H1 H2].
  apply N.leb_le in H1, H2. lia.
Qed.

Lemma isDigit_not_whiteSpace c : isDigit c = true -> isWhiteSpace c = false.
Proof.
  intros H. apply isDigit_bounds in H. unfold isWhiteSpace.
  rewrite (proj2 (N.leb_gt c 13)) by lia.
  rewrite (proj2 (N.leb_gt 8192 c)) by lia.
  rewrite !(proj2 (N.eqb_neq c _)) by lia.
  now rewrite andb_false_r.
Qed.

(** After a leading 0 a numeral has a digit or nothing, never [x]: the
    radix stays 10. *)
Lemma radix_of_numeral c r :
  isDigit c = true -> Forall (fun c => isDigit c = true) r ->
  match c :: r with
  | 48%N :: x :: r0 =>
      if ((x =? 120) || (x =? 88))%N then (16, r0) else (10, c :: r)
  | _ => (10, c :: r)
  end = (10, c :: r).
Proof.
  intros Hc Hr. destruct r as [| x r0].
  - destruct c as [| [p | p |]]; try reflexivity;
      destruct p as [[p' | p' |] | [p' | p' |] |]; try reflexivity.
    all: repeat (destruct p' as [p' | p' |]; try reflexivity).
  - apply Forall_inv, isDigit_bounds in Hr.
    replace ((x =? 120) || (x =? 88))%N with false
      by (symmetry; apply orb_false_iff; split; apply N.eqb_neq; lia).
    destruct c as [| [p | p |]]; try reflexivity;
      destruct p as [[p' | p' |] | [p' | p' |] |]; try reflexivity.
    all: repeat (destruct p' as [p' | p' |]; try reflexivity).
Qed.

(** Reading an unsigned numeral: no white space to skip and no sign. *)
Lemma parseInt_digits s :
  s <> [] -> Forall (fun c => isDigit c = true) s ->
  parseInt s = match digits 10 None s with Some m => Some (1 * m) | None => None end.
Proof.
  intros Hne Hall. destruct s as [| c r]; [congruence | ].
  apply Forall_cons_iff in Hall as [Hc Hr].
  pose proof (isDigit_bounds c Hc) as Hbounds.
  unfold parseInt. cbn [trimStart]. rewrite (isDigit_not_whiteSpace c Hc).
  replace (c =? hyphen)%N with false by (symmetry; apply N.eqb_neq; unfold hyphen; lia).
  replace (c =? plus)%N with false by (symmetry; apply N.eqb_neq; unfold plus; lia).
  match goal with
  | |- (let '(radix, s3) := ?m in _) = _ =>
      assert (Hm : m = (10, c :: r)) by exact (radix_of_numeral c r Hc Hr);
      rewrite Hm
  end.
  reflexivity.
Qed.

(** Reading a numeral behind a minus sign. *)
Lemma parseInt_minus_digits s :
  s <> [] -> Forall (fun c => isDigit c = true) s ->
  parseInt (hyphen :: s)
  = match digits 10 None s with Some m => Some (-1 * m) | None => None end.
Proof.
  intros Hne Hall. destruct s as [| c r]; [congruence | ].
  apply Forall_cons_iff in Hall as [Hc Hr].
  unfold parseInt. cbn [trimStart].
  change (isWhiteSpace hyphen) with false. cbv iota.
  change (hyphen =? hyphen)%N with true. cbv iota.
  match goal with
  | |- (let '(radix, s3) := ?m in _) = _ =>
      assert (Hm : m = (10, c :: r)) by exact (radix_of_numeral c r Hc Hr);
      rewrite Hm
  end.
  reflexivity.
Qed.

Lemma string_of_uint_not_empty d :
  d <> Decimal.Nil -> lit (NilEmpty.string_of_uint d) <> [].
Proof. destruct d; [congruence | ..]; discriminate. Qed.

(** The decimal digits [toString] writes are read back by [parseInt].  This
    relates the two definitions of the embedding; of the script it says
    something only where [toString] is the script's number-to-string, that
    is for magnitudes below 10^21. *)
Lemma parseInt_toString (z : Z) : parseInt (lit (toString z)) = Some z.
Proof.
  unfold toString, NilZero.string_of_int, Z.to_int.
  destruct z as [| p | p]; [reflexivity | | ];
    pose proof (Unsigned.to_uint_nonnil p) as Hnil;
    pose proof (Unsigned.of_to p) as Hof.
  - assert (E : NilZero.string_of_uint (Pos.to_uint p)
                = NilEmpty.string_of_uint (Pos.to_uint p))
      by (destruct (Pos.to_uint p); [congruence | ..]; reflexivity).
    rewrite E, parseInt_digits.
    + now rewrite digits_of_uint_start, Hof.
    + now apply string_of_uint_not_empty.
    + apply string_of_uint_digits.
  - assert (E : NilZero.string_of_uint (Pos.to_uint p)
                = NilEmpty.string_of_uint (Pos.to_uint p))
      by (destruct (Pos.to_uint p); [congruence | ..]; reflexivity).
    rewrite E.
    change (lit (String "-" (NilEmpty.string_of_uint (Pos.to_uint p))))
      with (hyphen :: lit (NilEmpty.string_of_uint (Pos.to_uint p))).
    rewrite parseInt_minus_digits.
    + now rewrite digits_of_uint_start, Hof.
    + now apply string_of_uint_not_empty.
    + apply string_of_uint_digits.
Qed.

(** ** The page list sent to the server, typed back into the page field *)

Lemma trimStart_id s :
  Forall (fun c => isWhiteSpace c = false) s -> trimStart s = s.
Proof.
  intros H. destruct H as [| c r Hc _]; [reflexivity | ].
  simpl. now rewrite Hc.
Qed.

Lemma trim_id s : Forall (fun c => isWhiteSpace c = false) s -> trim s = s.
Proof.
  intros H. unfold trim, trimEnd. rewrite (trimStart_id s H).
  rewrite trimStart_id; [apply rev_involutive | ].
  apply Forall_forall. intros c Hc. apply in_rev in Hc.
  rewrite Forall_forall in H. now apply H.
Qed.

Lemma digits_not_whiteSpace s :
  Forall (fun c => isDigit c = true) s ->
  Forall (fun c => isWhiteSpace c = false) s.
Proof.
  apply Forall_impl. intros c. apply isDigit_not_whiteSpace.
Qed.

Lemma digits_without unit s :
  isDigit unit = false -> Forall (fun c => isDigit c = true) s -> ~ In unit s.
Proof.
  intros Hu Hs Hin. rewrite Forall_forall in Hs. specialize (Hs _ Hin). congruence.
Qed.

(** A page number is written with digits only. *)
Lemma toString_page z :
  0 < z ->
  lit (toString z) <> [] /\ Forall (fun c => isDigit c = true) (lit (toString z)).
Proof.
  intros Hz. destruct z as [| p | p]; try lia.
  unfold toString, NilZero.string_of_int, Z.to_int.
  pose proof (Unsigned.to_uint_nonnil p) as Hnil.
  assert (E : NilZero.string_of_uint (Pos.to_uint p)
              = NilEmpty.string_of_uint (Pos.to_uint p))
    by (destruct (Pos.to_uint p); [congruence | ..]; reflexivity).
  rewrite E. split; [now apply string_of_uint_not_empty | apply string_of_uint_digits].
Qed.

Lemma join_cons x y r :
  lit (join "," (x :: y :: r)) = lit (toString x) ++ comma :: lit (join "," (y :: r)).
Proof.
  change (join "," (x :: y :: r))
    with (toString x ++ "," ++ join "," (y :: r))%string.
  now rewrite !lit_app.
Qed.

(** The joined list is made of digits and commas, and splits at the commas
    into the numerals. *)
Lemma join_pages sel :
  Forall (fun p => 0 < p) sel -> sel <> [] ->
  Forall (fun c => isWhiteSpace c = false) (lit (join "," sel))
  /\ lit (join "," sel) <> []
  /\ split comma (lit (join "," sel)) = map (fun p => lit (toString p)) sel.
Proof.
  induction 1 as [| x r Hx Hr IH]; intros Hne; [congruence | ].
  destruct (toString_page x Hx) as [Hnon Hdig].
  destruct r as [| y r'].
  - cbn [join map]. split; [now apply digits_not_whiteSpace | split; [exact Hnon | ]].
    apply split_without_sep. now apply digits_without.
  - destruct (IH ltac:(discriminate)) as (Hws & _ & Hsplit).
    rewrite join_cons. split; [ | split].
    + apply Forall_app. split; [now apply digits_not_whiteSpace | ].
      constructor; [reflexivity | exact Hws].
    + destruct (lit (toString x)); [congruence | discriminate].
    + rewrite split_at_first_sep by now apply digits_without.
      now rewrite Hsplit.
Qed.

(** A numeral as a token: its page is pushed unless it is there already. *)
Lemma addPart_page arr p :
  0 < p ->
  addPart arr (lit (toString p)) = if includes p arr then arr else arr ++ [p].
Proof.
  intros Hp. destruct (toString_page p Hp) as [_ Hdig].
  unfold addPart. rewrite (trim_id _ (digits_not_whiteSpace _ Hdig)).
  replace (includes_unit hyphen (lit (toString p))) with false.
  - now rewrite parseInt_toString.
  - symmetry. unfold includes_unit.
    destruct (existsb (N.eqb hyphen) (lit (toString p))) eqn:E; [ | reflexivity].
    apply existsb_exists in E as (c & Hc & Ec). apply N.eqb_eq in Ec. subst c.
    exfalso. now apply (digits_without hyphen (lit (toString p))).
Qed.

Lemma forEach_addPart_pages sel :
  forall arr,
    Forall (fun p => 0 < p) sel -> NoDup (arr ++ sel) ->
    fold_left addPart (map (fun p => lit (toString p)) sel) arr = arr ++ sel.
Proof.
  induction sel as [| x r IH]; intros arr Hpos Hnd; simpl;
    [now rewrite app_nil_r | ].
  apply Forall_cons_iff in Hpos as [Hx Hr].
  rewrite (addPart_page arr x Hx).
  replace (includes x arr) with false.
  - rewrite IH; [now rewrite <- app_assoc | exact Hr | now rewrite <- app_assoc].
  - symmetry. apply includes_not_In. apply NoDup_remove_2 in Hnd.
    intros H. apply Hnd, in_app_iff. now left.
Qed.

Lemma filter_all {A} (f : A -> bool) l :
  Forall (fun x => f x = true) l -> filter f l = l.
Proof.
  induction 1 as [| x r Hx _ IH]; simpl; [reflexivity | ]. now rewrite Hx, IH.
Qed.

(** X16.  The page list [translateFileContent] sends ([selectedPages.join(',')])
    is a page specification [parsePageInput] understands, and it means the
    same pages: typed into the page field of a file of [n] pages, the joined
    list of a strictly ascending selection within [1..n] selects exactly
    that selection. *)
Theorem parsePageInput_of_joined_selection
    (s : Session) (data : FileData) (sel : list Z) :
  currentFileData s = Some data -> 1 <= pages (file_info data) ->
  Sorted Z.lt sel ->
  Forall (fun p => 1 <= p <= pages (file_info data)) sel ->
  selectedPages (parsePageInput (lit (join "," sel)) s) = sel.
Proof.
  intros Hd Hn Hs Hall.
  rewrite selectedPages_parsePageInput, (maxPages_pageCount s data Hd Hn).
  destruct sel as [| x r]; [reflexivity | ].
  assert (Hpos : Forall (fun p => 0 < p) (x :: r))
    by (eapply Forall_impl; [ | exact Hall]; simpl; intros; lia).
  destruct (join_pages (x :: r) Hpos ltac:(discriminate)) as (Hws & Hne & Hsplit).
  rewrite (trim_id _ Hws).
  destruct (lit (join "," (x :: r))) as [| c input] eqn:E; [congruence | ].
  rewrite Hsplit.
  rewrite (forEach_addPart_pages (x :: r) [] Hpos)
    by (simpl; now apply Sorted_lt_NoDup).
  cbn [app]. rewrite filter_all.
  - now apply sort_ascending.
  - eapply Forall_impl; [ | exact Hall]. simpl. intros p Hp.
    apply andb_true_intro. split; apply Z.leb_le; lia.
Qed.

Lemma parsePageInput_of_joined_selection_witness :
  selectedPages (parsePageInput (lit "1,3") uploaded3) = [1; 3].
Proof.
  apply (parsePageInput_of_joined_selection uploaded3 pdf3 [1; 3]).
  - reflexivity.
  - simpl. lia.
  - repeat constructor.
  - repeat constructor; simpl; lia.
Defined.

(** ** The upload response *)

(** X17.  Whatever the upload response, its handler ends in exactly one of
    two ways.  When the status is 200 and the body parses to an object or
    array with a truthy success flag, the file info is stored and the results
    are scheduled, with no error and with the loading screen left up until
    then; an [extraction_error] only adds a warning.  In every other case the
    loading screen is hidden and one error is shown, nothing is stored and no
    results are scheduled. *)
Theorem upload_onload_one_outcome (xhr : Response) :
  if Upload.accepted xhr then
    exists data,
      parsed xhr = Some data
      /\ Upload.onload xhr
         = [Upload.storeFileInfo (get data "file_info");
            Upload.setProgress "95%" "Processing file...";
            Upload.showResultsLater 500 data]
           ++ (if truthy (get data "extraction_error")
               then [Upload.notify
                       [Lit "Warning: "; Interp (get data "extraction_error")]
                       "warning"]
               else [])
      /\ existsb Upload.isError (Upload.onload xhr) = false
  else
    (exists message,
       Upload.onload xhr
       = [Upload.hideFileUploadLoading; Upload.notify message "error"])
    /\ existsb Upload.showsResults (Upload.onload xhr) = false
    /\ existsb Upload.storesFileInfo (Upload.onload xhr) = false.
Proof.
  unfold Upload.accepted, Upload.onload.
  destruct (status xhr =? 200); cbn [andb].
  - destruct (parsed xhr) as [data | ].
    + destruct (Upload.notAnObject data); cbn [negb andb].
      * split; [eexists; reflexivity | split; reflexivity].
      * destruct (truthy (get data "success")).
        -- exists data. split; [reflexivity | split; [reflexivity | ]].
           destruct (truthy (get data "extraction_error")); reflexivity.
        -- split; [eexists; reflexivity | split; reflexivity].
    + split; [eexists; reflexivity | split; reflexivity].
  - split; [eexists; reflexivity | split; reflexivity].
Qed.

(** ** The text translator *)

(** The four ways [performTranslation] starts. *)
Lemma performTranslation_cases (p : Translator.Page) :
  (trim (Translator.inputText p) = []
   /\ Translator.performTranslation p
      = (p, [Translator.showNotification "Please enter text to translate" "error"]))
  \/ (trim (Translator.inputText p) <> []
      /\ Translator.sourceLanguage p = Translator.targetLanguage p
      /\ Translator.sourceLanguage p <> "auto"%string
      /\ Translator.performTranslation p
         = (p, [Translator.showNotification
                  "Source and target languages cannot be the same" "error"]))
  \/ (trim (Translator.inputText p) <> []
      /\ (Translator.sourceLanguage p <> Translator.targetLanguage p
          \/ Translator.sourceLanguage p = "auto"%string)
      /\ Translator.targetLanguageText p = None
      /\ Translator.performTranslation p
         = (Translator.setLoadingState false
              (Translator.addErrorClass (Translator.setLoadingState true p)),
            [Translator.showNotification "Translation failed. Please try again."
               "error"]))
  \/ (exists label,
        trim (Translator.inputText p) <> []
        /\ (Translator.sourceLanguage p <> Translator.targetLanguage p
            \/ Translator.sourceLanguage p = "auto"%string)
        /\ Translator.targetLanguageText p = Some label
        /\ Translator.performTranslation p
           = (Translator.setLoadingState true p,
              [Translator.fetchTranslate
                 (Translator.apiUrl (Translator.hostname p))
                 (trim (Translator.inputText p)) label])).
Proof.
  unfold Translator.performTranslation.
  destruct (trim (Translator.inputText p)) as [| c r] eqn:Et; [left; now split | ].
  right.
  assert (Hne : c :: r <> []) by discriminate.
  destruct (String.eqb_spec (Translator.sourceLanguage p) (Translator.targetLanguage p))
    as [Esame | Esame];
    destruct (String.eqb_spec (Translator.sourceLanguage p) "auto") as [Eauto | Eauto];
    cbn [andb negb].
  2:{ left. repeat split; assumption. }
  all: right;
    assert (Hlang : Translator.sourceLanguage p <> Translator.targetLanguage p
                    \/ Translator.sourceLanguage p = "auto"%string) by tauto;
    destruct (Translator.targetLanguageText p) as [label | ] eqn:El;
    [ right; exists label | left ];
    cbn [Translator.setLoadingState Translator.targetLanguageText Translator.hostname];
    rewrite El; repeat split; assumption.
Qed.

(** X18.  [performTranslation] asks the server exactly when the trimmed
    input is not empty, the two languages differ or the source is [auto], and
    an option of the target list is selected.  The request then carries the
    trimmed text and that option's text, and the translate button, the input
    and the copy button are disabled while it is under way.  Otherwise one
    error is shown, and the call leaves the page as it was or with the button
    out of its loading state. *)
Theorem performTranslation_sends_iff (p : Translator.Page) :
  let p' := fst (Translator.performTranslation p) in
  let effects := snd (Translator.performTranslation p) in
  (existsb Translator.isFetch effects = true <->
   trim (Translator.inputText p) <> []
   /\ (Translator.sourceLanguage p <> Translator.targetLanguage p
       \/ Translator.sourceLanguage p = "auto"%string)
   /\ Translator.targetLanguageText p <> None)
  /\ (forall url text label,
        In (Translator.fetchTranslate url text label) effects ->
        text = trim (Translator.inputText p)
        /\ Translator.targetLanguageText p = Some label
        /\ url = Translator.apiUrl (Translator.hostname p)
        /\ Translator.translateBtn_disabled p' = true
        /\ Translator.inputText_disabled p' = true
        /\ Translator.copyBtn_disabled p' = true)
  /\ (existsb Translator.isFetch effects = false ->
      (exists message, effects = [Translator.showNotification message "error"])
      /\ (p' = p \/ Translator.translateBtn_loading p' = false)).
Proof.
  destruct (performTranslation_cases p)
    as [(Et & ->) | [(Et & Es & Ea & ->) | [(Et & Hl & El & ->) | (label & Et & Hl & El & ->)]]];
    cbn [fst snd].
  - split; [ | split].
    + split; [discriminate | intros [H _]; now contradiction H].
    + intros url text label [H | []]. discriminate H.
    + intros _. split; [eexists; reflexivity | now left].
  - split; [ | split].
    + split; [discriminate | intros (_ & [H | H] & _); congruence].
    + intros url text label [H | []]. discriminate H.
    + intros _. split; [eexists; reflexivity | now left].
  - split; [ | split].
    + split; [discriminate | intros (_ & _ & H); congruence].
    + intros url text label [H | []]. discriminate H.
    + intros _. split; [eexists; reflexivity | now right].
  - split; [ | split].
    + split; [intros _; repeat split; [assumption | assumption | congruence]
             | reflexivity].
    + intros url text label' [H | []]. injection H as <- <- <-.
      repeat split. exact El.
    + discriminate.
Qed.

(** ** The sign-in page *)

(** X19.  [handleSignup] writes an account record only when the two
    passwords are the same, the terms are agreed to, the password has at
    least 8 code units and the request resolves; the record then goes to
    [sessionStorage] under [transverse_auth] and holds the name, the e-mail
    address and the time.  [localStorage] is never touched.  When a check
    fails nothing at all changes and one error names the first check that
    failed; when the checks pass the button is back to "Create Account"
    and out of its loading state however the request ends. *)
Theorem handleSignup_stores_iff
    (form : Login.SignupForm) (resolved : bool) (now : string)
    (b : Login.Browser) :
  let b' := fst (Login.handleSignup form resolved now b) in
  let effects := snd (Login.handleSignup form resolved now b) in
  Login.localStorage b' = Login.localStorage b
  /\ Login.sessionStorage b'
     = (if Login.signupValid form && resolved
        then Login.setItem "transverse_auth"
               (Login.signupData (Login.signupName form) (Login.signupEmail form)
                  now true)
               (Login.sessionStorage b)
        else Login.sessionStorage b)
  /\ (if Login.signupValid form
      then Login.submitBtn_loading b' = false
           /\ Login.submitBtn_text b' = "Create Account"%string
      else b' = b
           /\ effects
              = [Login.showAuthMessage
                   (if negb (Strings.sameText (Login.signupPassword form)
                               (Login.confirmPassword form))
                    then "Passwords do not match."
                    else if negb (Login.agreeTerms form)
                         then "Please agree to the Terms of Service and Privacy Policy."
                         else "Password must be at least 8 characters long.")%string
                   "error"]).
Proof.
  unfold Login.handleSignup, Login.signupValid.
  destruct (Strings.sameText (Login.signupPassword form) (Login.confirmPassword form));
    cbn [negb andb fst snd]; [ | repeat split].
  destruct (Login.agreeTerms form); cbn [negb andb fst snd]; [ | repeat split].
  destruct (Z.of_nat (List.length (Login.signupPassword form)) <? 8);
    cbn [negb andb fst snd]; [repeat split | ].
  destruct resolved; repeat split.
Qed.

(** X20.  [handleLogin] writes the sign-in record only when the request
    resolves, and then to one storage area only: [localStorage] when
    "remember me" is ticked, [sessionStorage] when it is not; the other
    area and, on failure, both areas are left as they were.  The record
    holds the e-mail address, the time and the flag, and nothing in the
    outcome depends on the password typed.  The button is back to
    "Sign In" and out of its loading state in every case. *)
Theorem handleLogin_storage
    (form : Login.LoginForm) (resolved : bool) (now : string)
    (b : Login.Browser) (otherPassword : text) :
  let b' := fst (Login.handleLogin form resolved now b) in
  let record :=
    Login.loginData (Login.loginEmail form) now (Login.rememberMe form) in
  Login.localStorage b'
  = (if resolved && Login.rememberMe form
     then Login.setItem "transverse_auth" record (Login.localStorage b)
     else Login.localStorage b)
  /\ Login.sessionStorage b'
     = (if resolved && negb (Login.rememberMe form)
        then Login.setItem "transverse_auth" record (Login.sessionStorage b)
        else Login.sessionStorage b)
  /\ Login.submitBtn_loading b' = false
  /\ Login.submitBtn_text b' = "Sign In"%string
  /\ Login.handleLogin
       {| Login.loginEmail := Login.loginEmail form;
          Login.loginPassword := otherPassword;
          Login.rememberMe := Login.rememberMe form |} resolved now b
     = Login.handleLogin form resolved now b.
Proof.
  unfold Login.handleLogin.
  destruct resolved; destruct (Login.rememberMe form) eqn:E;
    cbn [andb negb fst snd Login.rememberMe Login.loginEmail];
    rewrite ?E; repeat split.
Qed.
